(** * agdb: the audiogames.net database scraper

    A shallow embedding of [agdb.py] (classes [game] and [AgDB] and the
    crawl loop of the script) and the properties of its listing parser,
    detail parser, diff, merge, store and driver.

    Python dictionaries with string keys are [gmap string string]; lists
    are [list]; exceptions are values of [exn] carried by [result]; the
    document tree that BeautifulSoup builds is the inductive [node]. *)

From Stdlib Require Import String Ascii.
From stdpp Require Import base option list strings pretty gmap fin_maps sorting.

Open Scope string_scope.
Set Warnings "-register-all,-clear-no-such-hyp".

(** ** Exceptions and results *)

(** The Python exceptions that the modelled code can raise. *)
Inductive exn : Type :=
| AttributeError
| IndexError
| KeyError
| TypeError
| ValueError
| RuntimeError
| FileNotFoundError
| RequestException
| KeyboardInterrupt.

Global Instance exn_eq_dec : EqDecision exn.
Proof. solve_decision. Defined.

Inductive result (A : Type) : Type :=
| Ok (a : A)
| Raise (e : exn).
Arguments Ok {A} a.
Arguments Raise {A} e.

Global Instance result_ret : MRet result := fun _ a => Ok a.
Global Instance result_bind : MBind result := fun _ _ f m =>
  match m with
  | Ok a => f a
  | Raise e => Raise e
  end.

Definition is_Ok {A} (r : result A) : Prop := ∃ a, r = Ok a.

(** [l[i]] on a Python list. *)
Definition getindex {A} (l : list A) (i : nat) : result A :=
  match l !! i with
  | Some x => Ok x
  | None => Raise IndexError
  end.

(** [d[k]] on a Python dict. *)
Definition getitem (d : gmap string string) (k : string) : result string :=
  match d !! k with
  | Some v => Ok v
  | None => Raise KeyError
  end.

(** [for x in l: acc = body(x, acc)], stopping at the first exception. *)
Fixpoint for_acc {A B} (body : A → B → result B) (l : list A) (acc : B) : result B :=
  match l with
  | [] => Ok acc
  | x :: l' => acc' ← body x acc; for_acc body l' acc'
  end.

(** ** Strings *)

(** [s.rstrip(c)] for a one-character argument: every trailing [c] goes. *)
Fixpoint rstrip (c : ascii) (s : string) : string :=
  match s with
  | EmptyString => EmptyString
  | String a s' =>
      match rstrip c s' with
      | EmptyString => if decide (a = c) then EmptyString else String a EmptyString
      | r => String a r
      end
  end.

(** [s.startswith(p)] *)
Definition startswith (s p : string) : bool := String.prefix p s.

(** ** The document tree *)

(** A parsed document: text nodes ([NavigableString]) and elements
    ([Tag]) with a name, an attribute dictionary and the child nodes in
    document order. *)
Inductive node : Type :=
| NavigableString (s : string)
| Tag (name : string) (attrs : gmap string string) (contents : list node).

Definition name_of (n : node) : option string :=
  match n with Tag nm _ _ => Some nm | NavigableString _ => None end.

Definition attrs_of (n : node) : gmap string string :=
  match n with Tag _ a _ => a | NavigableString _ => ∅ end.

Definition contents_of (n : node) : list node :=
  match n with Tag _ _ cs => cs | NavigableString _ => [] end.

(** The elements of a subtree in document order, the root element
    first: the order in which [find_all] and [find_next] visit them. *)
Fixpoint elements (n : node) : list node :=
  match n with
  | NavigableString _ => []
  | Tag _ _ cs => n :: flat_map elements cs
  end.

(** The elements strictly below [n], in document order. *)
Definition descendants (n : node) : list node :=
  flat_map elements (contents_of n).

(** [n.text]: all the strings below [n], concatenated. *)
Fixpoint text (n : node) : string :=
  match n with
  | NavigableString s => s
  | Tag _ _ cs => foldr (fun c acc => text c ++ acc) "" cs
  end.

(** [n.string]: the single string a tag leads to, if it has one. *)
Fixpoint string_of (n : node) : option string :=
  match n with
  | NavigableString s => Some s
  | Tag _ _ [c] => string_of c
  | Tag _ _ _ => None
  end.

Definition named (nm : string) (n : node) : bool :=
  bool_decide (name_of n = Some nm).

(** [n.findAll(nm)] / [n(nm)] *)
Definition findAll (nm : string) (n : node) : list node :=
  filter (fun e => named nm e = true) (descendants n).

(** [n.find(nm)] *)
Definition find (nm : string) (n : node) : option node :=
  head (findAll nm n).

(** [tag[k]] *)
Definition tag_getitem (n : node) (k : string) : result string :=
  getitem (attrs_of n) k.

(** The elements that come after the first one satisfying [p]: what
    repeated [findNext()] calls from that element walk through. [None]
    when no element satisfies [p]. *)
Fixpoint after_first (p : node → bool) (l : list node) : option (list node) :=
  match l with
  | [] => None
  | e :: l' => if p e then Some l' else after_first p l'
  end.

(** ** The libraries and the outside world

    What the script calls and this development does not define: the
    HTTP session, the lxml-backed BeautifulSoup parser, the markup
    serializer [str(tag)], [urllib.parse], [str.lower], [time.sleep],
    the [json] codec and the opening of a file for writing.
    Every definition below is parametric in them. *)
Class World : Type := {
  (** [r = session.get(url); r.raise_for_status(); r.text] *)
  session_get : string → result string;
  (** [BeautifulSoup(html, "lxml")] *)
  BeautifulSoup : string → node;
  (** [str(tag)] *)
  str_tag : node → string;
  (** [urlencode({"id": id})] *)
  urlencode_id : string → string;
  (** [urljoin(base, url)]; the base is [None] before a listing URL is set *)
  urljoin : option string → string → string;
  (** [s.lower()] *)
  str_lower : string → string;
  (** [time.sleep(random.uniform(1, 3))] after the item with this
      identifier: it returns, or a Ctrl-C ends it. *)
  sleep : string → result unit;
  (** [json.dumps(records, indent=4)] *)
  json_dump : list (gmap string string) → string;
  (** [json.loads(text)]: the array of records that a text denotes,
      [ValueError] for a text that is not JSON *)
  json_load : string → result (list (gmap string string));
  (** [open(filename, "w")] for a name that is not empty: the file is
      there to be written, or the directory is missing, the name is a
      directory, the permission is not given *)
  open_w : string → result unit;
}.

(** [d.update(other)]: the keys of [other] win. *)
Definition dict_update (d other : gmap string string) : gmap string string :=
  other ∪ d.

(** ** class game *)
Module game.

Record t : Type := mk {
  id : string;
  db_url : string;
  info : gmap string string;
}.

(** [game(id, db_url)] *)
Definition init (id db_url : string) : t :=
  {| id := id; db_url := db_url; info := ∅ |}.

(** The body of the row loop of [parse]. *)
Definition parse_row (row : node) (info : gmap string string)
  : result (gmap string string) :=
  let row := findAll "td" row in
  cell ← getindex row 0;
  let key := rstrip ":" (text cell) in
  value ← getindex row 1;
  value ← match find "a" value with
          | Some a => tag_getitem a "href"
          | None => Ok (text value)
          end;
  Ok (<[key := value]> info).

(** [soup.find("h2", text="Description")] accepts this element. *)
Definition is_description (e : node) : bool :=
  named "h2" e && bool_decide (string_of e = Some "Description").

(** The test that ends the description loop. *)
Definition is_break (e : node) : bool :=
  named "h2" e && bool_decide (text e ∈ ["Admin"; "Community"; "Quick Links"]).

Section with_world.
Context `{World}.

(** The [while True] loop of [parse] over the elements that follow the
    heading; running out of elements is [None.name]. *)
Fixpoint description_loop (following : list node) (description : string)
  : result string :=
  match following with
  | [] => Raise AttributeError
  | heading :: following' =>
      if is_break heading then Ok description
      else description_loop following' (description ++ str_tag heading)
  end.

(** The two passes of [parse] over a document already fetched. *)
Definition parse_soup (soup : node) (info : gmap string string)
  : result (gmap string string) :=
  info ← for_acc parse_row (findAll "tr" soup) info;
  description ←
    match after_first is_description (descendants soup) with
    | None => Raise AttributeError
    | Some following => description_loop following ""
    end;
  Ok (<["description" := description]> info).

Definition parse (self : t) : result t :=
  html ← session_get (db_url self);
  info ← parse_soup (BeautifulSoup html) (info self);
  Ok {| id := id self; db_url := db_url self; info := info |}.

End with_world.

Definition to_dict (self : t) : gmap string string :=
  dict_update (<["db_url" := db_url self]> (<["id" := id self]> ∅)) (info self).

(** The body of the loop of [diff]. *)
Definition diff_step (old : gmap string string) (k v : string)
  (d : gmap string string) : gmap string string :=
  match old !! k with
  | None => <[k := v]> d
  | Some v' => if decide (v ≠ v') then <[k := v]> d else d
  end.

Definition diff (self : t) (json_or_instance : gmap string string + t)
  : result (gmap string string) :=
  if decide (info self = ∅) then Raise RuntimeError
  else
    let old := match json_or_instance with
               | inl json => json
               | inr instance => info instance
               end in
    Ok (map_fold (diff_step old) ∅ (to_dict self)).

(** [__getattr__] *)
Definition getattr (self : t) (attr : string) : result string :=
  match info self !! attr with
  | Some v => Ok v
  | None => Raise AttributeError
  end.

End game.

(** ** class AgDB *)
Module AgDB.

Definition base_url : string := "https://audiogames.net/".

Record t : Type := mk {
  games : list game.t;
  games_json : list (gmap string string);
  _html : option string;
  url : option string;
}.

Definition set_games (v : list game.t) (self : t) : t :=
  {| games := v; games_json := games_json self; _html := _html self; url := url self |}.
Definition set_games_json (v : list (gmap string string)) (self : t) : t :=
  {| games := games self; games_json := v; _html := _html self; url := url self |}.
Definition set_html (v : option string) (self : t) : t :=
  {| games := games self; games_json := games_json self; _html := v; url := url self |}.
Definition set_url (v : option string) (self : t) : t :=
  {| games := games self; games_json := games_json self; _html := _html self; url := v |}.

(** The state the methods run in: the [AgDB] object itself, the files
    on disk with their text and the lines printed so far. A computation returns a value or raises, and leaves a
    state behind either way. *)
Record process : Type := mk_process {
  ag : AgDB.t;
  files : gmap string string;
  stdout : list string;
}.

Definition M (A : Type) : Type := process → result A * process.

Global Instance M_ret : MRet M := fun _ a p => (Ok a, p).
Global Instance M_bind : MBind M := fun _ _ f m p =>
  match m p with
  | (Ok a, p') => f a p'
  | (Raise e, p') => (Raise e, p')
  end.

(** A computation without effect on the state. *)
Definition lift {A} (r : result A) : M A := fun p => (r, p).

Definition raise {A} (e : exn) : M A := lift (Raise e).

Definition self : M AgDB.t := fun p => (Ok (ag p), p).

Definition modify (f : AgDB.t → AgDB.t) : M unit := fun p =>
  (Ok tt, {| ag := f (ag p); files := files p; stdout := stdout p |}).

Definition print (line : string) : M unit := fun p =>
  (Ok tt, {| ag := ag p; files := files p; stdout := stdout p ++ [line] |}).

Definition read_file (filename : string) : M (option string) :=
  fun p => (Ok (files p !! filename), p).

Definition put_file (filename text : string) : M unit :=
  fun p => (Ok tt, {| ag := ag p; files := <[filename := text]> (files p);
                      stdout := stdout p |}).

(** [try: body / except: handler] *)
Definition try_except {A} (body : M A) (handler : exn → M A) : M A := fun p =>
  match body p with
  | (Ok a, p') => (Ok a, p')
  | (Raise e, p') => handler e p'
  end.

(** [for x in l: body(x)] *)
Fixpoint for_each {A} (body : A → M unit) (l : list A) : M unit :=
  match l with
  | [] => mret tt
  | x :: l' => body x;; for_each body l'
  end.

(** [sorted(l, key=lambda k: k["id"])]: the keys are computed first,
    then the list is sorted by them, equal keys keeping their order. *)
Fixpoint keyed (l : list (gmap string string))
  : result (list (string * gmap string string)) :=
  match l with
  | [] => Ok []
  | k :: l' => key ← getitem k "id"; rest ← keyed l'; Ok ((key, k) :: rest)
  end.

Fixpoint insert_by_key (x : string * gmap string string)
  (l : list (string * gmap string string)) : list (string * gmap string string) :=
  match l with
  | [] => [x]
  | y :: l' => if String.leb x.1 y.1 then x :: y :: l' else y :: insert_by_key x l'
  end.

Definition sorted_by_id (l : list (gmap string string))
  : result (list (gmap string string)) :=
  decorated ← keyed l;
  Ok (snd <$> foldr insert_by_key [] decorated).

(** [[i for i in l if i["id"] == id]] *)
Fixpoint select_id (l : list (gmap string string)) (id : string)
  : result (list (gmap string string)) :=
  match l with
  | [] => Ok []
  | i :: l' =>
      v ← getitem i "id";
      rest ← select_id l' id;
      Ok (if decide (v = id) then i :: rest else rest)
  end.

(** [l.index(x)] *)
Definition index (l : list (gmap string string)) (x : gmap string string)
  : result nat :=
  match list_find (fun y => y = x) l with
  | Some (idx, _) => Ok idx
  | None => Raise ValueError
  end.

(** [a or b] on optional strings: [None] and the empty string are false. *)
Definition str_or (a b : option string) : option string :=
  match a with
  | Some s => if decide (s = "") then b else a
  | None => b
  end.

Section with_world.
Context `{World}.

(** [with open(filename, "w") as f: f.write(text)]: no file has the
    empty name; whether another name can be opened is the world's. *)
Definition write_file (filename text : string) : M unit :=
  if decide (filename = "") then raise FileNotFoundError
  else lift (open_w filename);; put_file filename text.

(** [filename_or_obj] is a file name here, as in every call of the
    source. No file has the empty name. *)
Definition load_game_json (filename : string) : M unit :=
  if decide (filename = "") then raise FileNotFoundError
  else
    content ← read_file filename;
    match content with
    | None => raise FileNotFoundError
    | Some text =>
        v ← lift (json_load text);
        modify (set_games_json v)
    end.

Definition save_game_json (filename : string) : M unit :=
  s ← self;
  v ← lift (sorted_by_id (games_json s));
  modify (set_games_json v);;
  write_file filename (json_dump v).

(** [AgDB(json_file)] *)
Definition init (json_file : option string) : M unit :=
  modify (fun _ => {| games := []; games_json := []; _html := None; url := None |});;
  match json_file with
  | Some f =>
      content ← read_file f;
      if bool_decide (f ≠ "") && bool_decide (is_Some content)
      then load_game_json f else mret tt
  | None => mret tt
  end.

(** [soup.find("form", id="SelfSubmit")] *)
Definition find_form (soup : node) : option node :=
  head (filter (fun e => named "form" e = true ∧ attrs_of e !! "id" = Some "SelfSubmit")
          (descendants soup)).

(** The body of the option loop of [parse]. *)
Definition parse_option (db_base : string) (option : node) : M unit :=
  id ← lift (tag_getitem option "value");
  if decide (id = "Select") then mret tt
  else
    s ← self;
    let db_url := db_base ++ "&" ++ urlencode_id id in
    let db_url := if startswith db_url "http" then db_url
                  else urljoin (url s) db_url in
    modify (set_games (games s ++ [game.init id db_url])).

Definition parse (html : option string) : M unit :=
  s ← self;
  match str_or html (_html s) with
  | None => raise TypeError
  | Some html =>
      let soup := BeautifulSoup html in
      match find_form soup with
      | None => raise TypeError
      | Some form =>
          db_base ← lift (tag_getitem form "action");
          for_each (parse_option db_base) (findAll "option" form)
      end
  end.

Definition get_games_from_url (url : option string) : M unit :=
  let url := default base_url (str_or url (Some base_url)) in
  modify (set_url (Some url));;
  text ← lift (session_get url);
  modify (set_html (Some text));;
  parse None.

(** [with open(filename, "r") as f: content = f.read()], then the
    parse; no file has the empty name. *)
Definition get_games_from_file (filename : string) : M unit :=
  if decide (filename = "") then raise FileNotFoundError
  else
    content ← read_file filename;
    match content with
    | None => raise FileNotFoundError
    | Some content => modify (set_html (Some content));; parse None
    end.

Definition update_if_needed (game : game.t) : M (option bool) :=
  s ← self;
  json_game ← lift (select_id (games_json s) (game.id game));
  match json_game with
  | [] =>
      print ("adding " ++ game.id game ++ " to database");;
      modify (set_games_json (games_json s ++ [game.to_dict game]));;
      mret (Some true)
  | json_game :: _ =>
      diff ← lift (game.diff game (inl json_game));
      if decide (diff ≠ ∅) then
        print ("Updating " ++ game.id game ++ " in database");;
        idx ← lift (index (games_json s) json_game);
        modify (set_games_json (alter (fun r => dict_update r diff) idx (games_json s)));;
        mret None
      else mret None
  end.

(** Calling a [str] value: it is not callable. *)
Definition call_str (f : string) : result string := Raise TypeError.

(** The loop variable takes the name of the parameter [game], as in the
    source: inside the loop [game] is the element of [self.games]. *)
Definition get_game (game : string) : M (option game.t) :=
  s ← self;
  lift ((fix loop (l : list game.t) : result (option game.t) :=
           match l with
           | [] => Ok None
           | game :: l' =>
               lower ← game.getattr game "lower";
               lowered ← call_str lower;
               if bool_decide (lowered = str_lower (game.id game)) || false
               then Ok (Some game)
               else loop l'
           end) (games s)).

(** [self.info] on an [AgDB] object: the class has no such attribute and
    no [__getattr__]. *)
Definition self_info : result (gmap string string) := Raise AttributeError.

(** [[i for i in self.games if self.info]] *)
Definition get_downloaded_games : M (list game.t) :=
  s ← self;
  lift ((fix loop (l : list game.t) : result (list game.t) :=
           match l with
           | [] => Ok []
           | i :: l' =>
               info ← self_info;
               rest ← loop l';
               Ok (if decide (info ≠ ∅) then i :: rest else rest)
           end) (games s)).

End with_world.

End AgDB.

(** ** The script *)
Section script.
Context `{World}.

(** What an iteration of the crawl loop tells the loop to do next. *)
Inductive flow : Type := Next | Break.

(** The body of the [try] block. *)
Definition item (g : game.t) : AgDB.M unit :=
  AgDB.print ("retrieving " ++ game.id g);;
  g ← AgDB.lift (game.parse g);
  AgDB.update_if_needed g;;
  AgDB.lift (sleep (game.id g)).

(** The two [except] clauses. *)
Definition handler (errors : nat) (e : exn) : AgDB.M (flow * nat) :=
  if decide (e = KeyboardInterrupt) then mret (Break, errors)
  else
    AgDB.print "Exception occurred";;
    let errors := S errors in
    AgDB.print ("error #" ++ pretty errors);;
    if decide (5 < errors) then
      AgDB.print "error limit reached, postponing further download";;
      mret (Break, errors)
    else mret (Next, errors).

(** [for g in ag.games: try: ... except ...], returning the error count. *)
Fixpoint crawl (games : list game.t) (errors : nat) : AgDB.M nat :=
  match games with
  | [] => mret errors
  | g :: games' =>
      r ← AgDB.try_except (item g;; mret (Next, errors)) (handler errors);
      match r.1 with
      | Next => crawl games' r.2
      | Break => mret r.2
      end
  end.

(** The script from [fn = sys.argv[-1]] on. *)
Definition main (fn : string) : AgDB.M unit :=
  AgDB.init (Some fn);;
  AgDB.get_games_from_url None;;
  s ← AgDB.self;
  AgDB.print (pretty (length (AgDB.games s)) ++ " games in database");;
  crawl (AgDB.games s) 0;;
  AgDB.save_game_json fn.

End script.

(** ** Notions for the statements *)

Definition has_id (r : gmap string string) : Prop := is_Some (r !! "id").

(** [r] is the first record of [l] with the identifier [id], at index [i]. *)
Definition first_with_id (l : list (gmap string string)) (id : string)
  (i : nat) (r : gmap string string) : Prop :=
  l !! i = Some r ∧ r !! "id" = Some id ∧
  ∀ j r', j < i → l !! j = Some r' → r' !! "id" ≠ Some id.

Definition key_le (x y : string * gmap string string) : Prop := String.le x.1 y.1.

(** [a] comes before [b] in a collection sorted by identifier. *)
Definition id_le (a b : gmap string string) : Prop :=
  ∃ x y, a !! "id" = Some x ∧ b !! "id" = Some y ∧ String.le x y.

(** The level of headings, [h1] to [h6]. *)
Definition is_heading (e : node) : Prop :=
  name_of e ∈ (Some <$> ["h1"; "h2"; "h3"; "h4"; "h5"; "h6"]).

(** [n] times the character [c]. *)
Fixpoint repeat_char (n : nat) (c : ascii) : string :=
  match n with
  | 0 => EmptyString
  | S n' => String c (repeat_char n' c)
  end.

(** The entry that the table pass makes of a row: the key from the first
    cell, the value from the second, whatever cells come after them. *)
Definition row_entry (row : node) (k v : string) : Prop :=
  ∃ c0 c1 rest, findAll "td" row = c0 :: c1 :: rest ∧
    k = rstrip ":" (text c0) ∧
    ((∃ a, find "a" c1 = Some a ∧ attrs_of a !! "href" = Some v) ∨
     (find "a" c1 = None ∧ v = text c1)).

(** The collection [js'] has every record of [js] at its place, with at
    least the keys it had. *)
Definition never_loses (js js' : list (gmap string string)) : Prop :=
  ∀ j r, js !! j = Some r → ∃ r', js' !! j = Some r' ∧ dom r ⊆ dom r'.

(** The identifiers of a collection, record by record. *)
Definition ids_of (js : list (gmap string string)) : list (option string) :=
  (fun r => r !! "id") <$> js.

(** The state that the handler leaves after the [n]-th error, below the
    limit and at it. *)
Definition after_failure (n : nat) (p : AgDB.process) : AgDB.process :=
  {| AgDB.ag := AgDB.ag p; AgDB.files := AgDB.files p;
     AgDB.stdout := AgDB.stdout p ++ ["Exception occurred"; "error #" ++ pretty n] |}.

Definition after_limit (n : nat) (p : AgDB.process) : AgDB.process :=
  {| AgDB.ag := AgDB.ag p; AgDB.files := AgDB.files p;
     AgDB.stdout := AgDB.stdout p ++
       ["Exception occurred"; "error #" ++ pretty n;
        "error limit reached, postponing further download"] |}.

(** [passes k p games k' p']: from the state [p], with [k] failures so
    far, every item of [games] is processed in turn, none is interrupted,
    and the failures, the earlier ones and those of the [try] blocks of
    these items, come to [k'], no more than the limit; [p'] is the state
    then. *)
Inductive passes `{World} :
    nat → AgDB.process → list game.t → nat → AgDB.process → Prop :=
| passes_nil k p : passes k p [] k p
| passes_ok k p g games k' p' u :
    (item g p).1 = Ok u →
    passes k (item g p).2 games k' p' →
    passes k p (g :: games) k' p'
| passes_failure k p g games k' p' e :
    (item g p).1 = Raise e → e ≠ KeyboardInterrupt → (S k ≤ 5)%nat →
    passes (S k) (after_failure (S k) (item g p).2) games k' p' →
    passes k p (g :: games) k' p'.

(** ** Worlds and pages for the examples *)

Definition attr (k v : string) : gmap string string := {[ k := v ]}.

Definition td (cs : list node) : node := Tag "td" ∅ cs.
Definition tr (cs : list node) : node := Tag "tr" ∅ cs.
Definition h2 (s : string) : node := Tag "h2" ∅ [NavigableString s].
Definition para (cs : list node) : node := Tag "p" ∅ cs.

(** A serializer good enough for examples: tag name and contents. *)
Fixpoint show (n : node) : string :=
  match n with
  | NavigableString s => s
  | Tag nm _ cs =>
      "<" ++ nm ++ ">" ++ foldr (fun c acc => show c ++ acc) "" cs ++ "</" ++ nm ++ ">"
  end.

(** A codec good enough for examples: a count in unary, a string after
    its length, a record after the number of its pairs, the collection
    after the number of its records. *)
Fixpoint unary (n : nat) : string :=
  match n with
  | 0 => "0"
  | S n' => String "1" (unary n')
  end.

Definition write_str (s : string) : string := unary (String.length s) ++ s.

Definition write_record (r : gmap string string) : string :=
  unary (size r) ++
  foldr (fun kv acc => write_str kv.1 ++ write_str kv.2 ++ acc) "" (map_to_list r).

Definition write_records (l : list (gmap string string)) : string :=
  unary (length l) ++ foldr (fun r acc => write_record r ++ acc) "" l.

Fixpoint read_unary (s : string) : option (nat * string) :=
  match s with
  | String "1" s' => '(n, r) ← read_unary s'; Some (S n, r)
  | String "0" s' => Some (0, s')
  | _ => None
  end.

Fixpoint split_at (n : nat) (s : string) : option (string * string) :=
  match n, s with
  | 0, _ => Some ("", s)
  | S n', String a s' => '(x, r) ← split_at n' s'; Some (String a x, r)
  | S _, EmptyString => None
  end.

Definition read_str (s : string) : option (string * string) :=
  '(n, r) ← read_unary s; split_at n r.

Fixpoint read_many {A} (read : string → option (A * string)) (n : nat) (s : string)
  : option (list A * string) :=
  match n with
  | 0 => Some ([], s)
  | S n' => '(x, r) ← read s; '(xs, r') ← read_many read n' r; Some (x :: xs, r')
  end.

Definition read_pair (s : string) : option ((string * string) * string) :=
  '(k, r) ← read_str s; '(v, r') ← read_str r; Some ((k, v), r').

Definition read_record (s : string) : option (gmap string string * string) :=
  '(n, r) ← read_unary s; '(kvs, r') ← read_many read_pair n r;
  Some (list_to_map kvs, r').

Definition read_records (s : string) : result (list (gmap string string)) :=
  match '(n, r) ← read_unary s; read_many read_record n r with
  | Some (l, EmptyString) => Ok l
  | _ => Raise ValueError
  end.

(** A world serving the given pages; anything else is a failed request.
    Every file with a name can be written. *)
Definition serving (pages : gmap string node) : World := {|
  session_get u := if decide (is_Some (pages !! u)) then Ok u else Raise RequestException;
  BeautifulSoup u := default (Tag "[document]" ∅ []) (pages !! u);
  str_tag := show;
  urlencode_id i := "id=" ++ i;
  urljoin base u := default "" base ++ u;
  str_lower s := s;
  sleep _ := Ok tt;
  json_dump := write_records;
  json_load := read_records;
  open_w _ := Ok tt;
|}.

Definition page1 : node := Tag "[document]" ∅ [
  Tag "table" ∅ [
    tr [td [NavigableString "Author:"]; td [NavigableString "Jim"]];
    tr [td [NavigableString "Home:"];
        td [Tag "a" (attr "href" "http://x") [NavigableString "site"]]]];
  h2 "Description";
  para [NavigableString "fun"];
  h2 "Community";
  para [NavigableString "forum"]].

Definition world1 : World := serving {[ "u" := page1 ]}.

Definition parsed1 : game.t :=
  game.mk "g" "u"
    {[ "Author" := "Jim"; "Home" := "http://x"; "description" := "<p>fun</p>" ]}.

(** The state of a script that has not done anything yet. *)
Definition fresh : AgDB.process :=
  {| AgDB.ag := {| AgDB.games := []; AgDB.games_json := [];
                   AgDB.url := None; AgDB._html := None |};
     AgDB.files := ∅;
     AgDB.stdout := [] |}.

(** A state whose collection is [js]. *)
Definition holding (js : list (gmap string string)) : AgDB.process :=
  {| AgDB.ag := AgDB.set_games_json js (AgDB.ag fresh);
     AgDB.files := ∅;
     AgDB.stdout := [] |}.

(** A world in which every request fails. *)
Definition world_down : World := serving ∅.

Definition ten_games : list game.t :=
  (fun i => game.init i ("https://audiogames.net/db.php?id=" ++ i))
    <$> ["1"; "2"; "3"; "4"; "5"; "6"; "7"; "8"; "9"; "10"].


(** A page whose description holds a nested element and a bare string. *)
Definition page_nested : node := Tag "[document]" ∅ [
  h2 "Description";
  para [NavigableString "a"; Tag "b" ∅ [NavigableString "c"]];
  NavigableString "loose";
  h2 "Quick Links"].

(** A page whose closing heading is inside the element that follows the
    [Description] heading. *)
Definition page_boxed : node := Tag "[document]" ∅ [
  h2 "Description";
  Tag "div" ∅ [para [NavigableString "x"]; h2 "Admin"; para [NavigableString "after"]];
  h2 "Community"].

(** A page without the heading. *)
Definition page_bare : node := Tag "[document]" ∅ [
  Tag "table" ∅ [tr [td [NavigableString "Author:"]; td [NavigableString "Jim"]]];
  Tag "h3" ∅ [NavigableString "About"];
  h2 "Community"].

Definition world6 : World :=
  serving {[ "nested" := page_nested; "boxed" := page_boxed ]}.

(** A page with a row of three cells, and one with a row of one cell. *)
Definition page_wide : node := Tag "[document]" ∅ [
  Tag "table" ∅ [tr [td [NavigableString "Author::"]; td [NavigableString "Jim"];
                     td [NavigableString "extra"]]];
  h2 "Description"; h2 "Admin"].

Definition page_narrow : node := Tag "[document]" ∅ [
  Tag "table" ∅ [tr [td [NavigableString "banner"]]];
  h2 "Description"; h2 "Admin"].

Definition world2 : World :=
  serving {[ "nested" := page_nested; "bare" := page_bare;
             "wide" := page_wide; "narrow" := page_narrow ]}.

(** A listing page: the form with a placeholder and two items. *)
Definition listing : node := Tag "[document]" ∅ [
  Tag "form" (attr "id" "search") [];
  Tag "form" {[ "id" := "SelfSubmit"; "action" := "dbgame.php?lang=en" ]} [
    Tag "select" ∅ [
      Tag "option" (attr "value" "Select") [NavigableString "Select a game"];
      Tag "option" (attr "value" "swamp") [NavigableString "Swamp"];
      Tag "option" (attr "value" "hero") [NavigableString "A Hero"]]]].

Definition world3 : World := serving {[ "https://audiogames.net/" := listing ]}.

(** A site with the listing and the pages of its two games, one of them
    without the heading. *)
Definition world4 : World := serving {[
  "https://audiogames.net/" := listing;
  "https://audiogames.net/dbgame.php?lang=en&id=swamp" := page1;
  "https://audiogames.net/dbgame.php?lang=en&id=hero" := page_bare ]}.

(** A world in which a Ctrl-C ends every request. *)
Definition world_interrupted : World := {|
  session_get _ := Raise KeyboardInterrupt;
  BeautifulSoup _ := Tag "[document]" ∅ [];
  str_tag := show;
  urlencode_id i := "id=" ++ i;
  urljoin base u := default "" base ++ u;
  str_lower s := s;
  sleep _ := Ok tt;
  json_dump := write_records;
  json_load := read_records;
  open_w _ := Ok tt;
|}.

(** A page with a link that has no target, and one whose description
    has no end. *)
Definition page_no_href : node := Tag "[document]" ∅ [
  Tag "table" ∅ [
    tr [td [NavigableString "Author:"]; td [NavigableString "Jim"]];
    tr [td [NavigableString "Home:"]; td [Tag "a" ∅ [NavigableString "site"]]]];
  h2 "Description"; h2 "Admin"].

Definition page_open_end : node := Tag "[document]" ∅ [
  h2 "Description"; para [NavigableString "fun"]; Tag "h3" ∅ [NavigableString "Community"]].

(** A page with the same label in two rows. *)
Definition page_twice : node := Tag "[document]" ∅ [
  Tag "table" ∅ [
    tr [td [NavigableString "Price:"]; td [NavigableString "free"]];
    tr [td [NavigableString "Author:"]; td [NavigableString "Jim"]];
    tr [td [NavigableString "Price"]; td [NavigableString "5"]]];
  h2 "Description"; h2 "Admin"].

Definition world7 : World :=
  serving {[ "narrow" := page_narrow; "no_href" := page_no_href;
             "open_end" := page_open_end; "twice" := page_twice ]}.

(** A listing whose second item has lost its value. *)
Definition listing_broken : node := Tag "[document]" ∅ [
  Tag "form" {[ "id" := "SelfSubmit"; "action" := "dbgame.php?lang=en" ]} [
    Tag "select" ∅ [
      Tag "option" (attr "value" "Select") [NavigableString "Select a game"];
      Tag "option" (attr "value" "swamp") [NavigableString "Swamp"];
      Tag "option" ∅ [NavigableString "A Hero"];
      Tag "option" (attr "value" "zork") [NavigableString "Zork"]]]].

Definition world5 : World :=
  serving {[ "https://audiogames.net/" := listing_broken; "bare" := page_bare ]}.

(** The stored record and the fresh parse of the example of the
    specification. *)
Definition stored : gmap string string :=
  {[ "id" := "g"; "db_url" := "u"; "a" := "1"; "b" := "2" ]}.

Definition reparsed : game.t :=
  game.mk "g" "u" {[ "a" := "1"; "b" := "3"; "c" := "4" ]}.

(** An item whose page has a table row labelled [id]. *)
Definition masked : game.t :=
  game.mk "swamp" "u" {[ "id" := "42"; "description" := "" ]}.

(** * Properties *)

(** ** Dictionaries *)

Lemma dict_update_lookup_Some (d other : gmap string string) k v :
  other !! k = Some v → dict_update d other !! k = Some v.
Proof. intros Hk. unfold dict_update. by apply lookup_union_Some_l. Qed.

Lemma dict_update_lookup_None (d other : gmap string string) k :
  other !! k = None → dict_update d other !! k = d !! k.
Proof. intros Hk. unfold dict_update. by rewrite lookup_union_r. Qed.

Lemma dict_update_empty (d : gmap string string) : dict_update d ∅ = d.
Proof. unfold dict_update. by rewrite (left_id_L ∅ (∪)). Qed.

Lemma to_dict_info (g : game.t) k v :
  game.info g !! k = Some v → game.to_dict g !! k = Some v.
Proof. apply dict_update_lookup_Some. Qed.

Lemma to_dict_id (g : game.t) : is_Some (game.to_dict g !! "id").
Proof.
  unfold game.to_dict. destruct (game.info g !! "id") as [v|] eqn:Hi.
  - exists v. by apply dict_update_lookup_Some.
  - exists (game.id g). rewrite dict_update_lookup_None by done.
    by simplify_map_eq.
Qed.

(** ** The diff *)

(** The loop of [diff] keeps the pairs of the new record that the old
    record does not hold. *)
Lemma diff_loop_lookup (old new : gmap string string) k v :
  map_fold (game.diff_step old) ∅ new !! k = Some v ↔
  new !! k = Some v ∧ old !! k ≠ Some v.
Proof.
  revert k v.
  apply (map_fold_weak_ind
    (fun d m => ∀ k v, d !! k = Some v ↔ m !! k = Some v ∧ old !! k ≠ Some v)).
  - intros k v. rewrite !lookup_empty. naive_solver.
  - intros i x m r Hi IH k v. unfold game.diff_step.
    destruct (decide (k = i)) as [->|Hne].
    + rewrite lookup_insert_eq.
      destruct (old !! i) as [v'|] eqn:Ho.
      * destruct (decide (x ≠ v')) as [Hx|Hx].
        -- rewrite lookup_insert_eq. naive_solver.
        -- apply dec_stable in Hx. subst v'. rewrite IH, Hi. naive_solver.
      * rewrite lookup_insert_eq. naive_solver.
    + rewrite (lookup_insert_ne m) by done.
      destruct (old !! i) as [v'|] eqn:Ho.
      * destruct (decide (x ≠ v')).
        -- rewrite lookup_insert_ne by done. apply IH.
        -- apply IH.
      * rewrite lookup_insert_ne by done. apply IH.
Qed.

Lemma parse_soup_description `{World} soup info info' :
  game.parse_soup soup info = Ok info' → is_Some (info' !! "description").
Proof.
  unfold game.parse_soup. intros Hp.
  destruct (for_acc game.parse_row (findAll "tr" soup) info) as [i|]; simpl in Hp; [|done].
  destruct (match after_first game.is_description (descendants soup) with
            | Some following => game.description_loop following ""
            | None => Raise AttributeError
            end) as [d|]; simpl in Hp; [|done].
  injection Hp as <-. rewrite lookup_insert_eq. by eexists.
Qed.

(** A parsed item has a non-empty attribute mapping. *)
Lemma parse_info_nonempty `{World} (g g' : game.t) :
  game.parse g = Ok g' → game.info g' ≠ ∅.
Proof.
  unfold game.parse. intros Hp.
  destruct (session_get (game.db_url g)) as [html|]; simpl in Hp; [|done].
  destruct (game.parse_soup (BeautifulSoup html) (game.info g)) as [i|] eqn:Hs;
    simpl in Hp; [|done].
  injection Hp as <-. simpl. apply parse_soup_description in Hs as [d Hd].
  intros ->. by rewrite lookup_empty in Hd.
Qed.

Lemma diff_nonempty_info (g : game.t) (old : gmap string string) :
  game.info g ≠ ∅ →
  game.diff g (inl old) = Ok (map_fold (game.diff_step old) ∅ (game.to_dict g)).
Proof. intros Hi. unfold game.diff. by rewrite decide_False. Qed.

(** C1. The diff of a freshly parsed item against a prior record holds
    exactly the keys of the new record that the prior record lacks or
    holds with a different value, each with the new value; a key that
    only the prior record has is not in it; and it is empty when the
    prior record holds every new key with an equal value. *)
Theorem C1_diff_changed_or_added `{World} (g g' : game.t) (old : gmap string string) :
  game.parse g = Ok g' →
  ∃ d, game.diff g' (inl old) = Ok d ∧
    (∀ k v, d !! k = Some v ↔
       game.to_dict g' !! k = Some v ∧
       (old !! k = None ∨ ∃ v', old !! k = Some v' ∧ v ≠ v')) ∧
    (∀ k, game.to_dict g' !! k = None → d !! k = None) ∧
    ((∀ k v, game.to_dict g' !! k = Some v → old !! k = Some v) → d = ∅).
Proof.
  intros Hp. apply parse_info_nonempty in Hp.
  eexists. split; [by apply diff_nonempty_info|]. split; [|split].
  - intros k v. rewrite diff_loop_lookup.
    destruct (old !! k) as [v'|]; naive_solver.
  - intros k Hk. apply eq_None_not_Some. intros [v Hv].
    apply diff_loop_lookup in Hv as [Hv _]. congruence.
  - intros Hall. apply map_eq. intros k. rewrite lookup_empty.
    apply eq_None_not_Some. intros [v Hv].
    apply diff_loop_lookup in Hv as [Hv Ho]. by apply Ho, Hall.
Qed.

Lemma C1_diff_changed_or_added_witness :
  @game.parse world1 (game.init "g" "u") = Ok parsed1 ∧
  ∃ d, game.diff parsed1 (inl {[ "id" := "g"; "Author" := "Tom" ]}) = Ok d ∧
    (∀ k v, d !! k = Some v ↔
       game.to_dict parsed1 !! k = Some v ∧
       (({[ "id" := "g"; "Author" := "Tom" ]} : gmap string string) !! k = None ∨
        ∃ v', ({[ "id" := "g"; "Author" := "Tom" ]} : gmap string string) !! k = Some v'
              ∧ v ≠ v')) ∧
    (∀ k, game.to_dict parsed1 !! k = None → d !! k = None) ∧
    ((∀ k v, game.to_dict parsed1 !! k = Some v →
        ({[ "id" := "g"; "Author" := "Tom" ]} : gmap string string) !! k = Some v) →
     d = ∅).
Proof.
  split; [vm_compute; reflexivity|].
  apply (@C1_diff_changed_or_added world1 (game.init "g" "u")).
  vm_compute; reflexivity.
Defined.

(** The diff of the example of the specification: stored [{a:1, b:2}],
    parsed [{a:1, b:3, c:4}] (next to the two structural keys, which the
    stored record holds too). *)
Example diff_example :
  game.diff (game.mk "g" "u" {[ "a" := "1"; "b" := "3"; "c" := "4" ]})
    (inl {[ "id" := "g"; "db_url" := "u"; "a" := "1"; "b" := "2" ]})
  = Ok {[ "b" := "3"; "c" := "4" ]}.
Proof. vm_compute; reflexivity. Qed.

(** An item that was never parsed cannot be compared. *)
Example diff_unparsed old : game.diff (game.init "g" "u") old = Raise RuntimeError.
Proof. reflexivity. Qed.

(** ** The store *)

Lemma select_id_total l id :
  Forall has_id l → ∃ found, AgDB.select_id l id = Ok found.
Proof.
  induction 1 as [|r l [v Hv] _ [found IH]]; simpl; [by eexists|].
  unfold getitem. rewrite Hv. simpl. rewrite IH. simpl. by eexists.
Qed.

Lemma select_id_none l id :
  Forall has_id l → Forall (fun r => r !! "id" ≠ Some id) l →
  AgDB.select_id l id = Ok [].
Proof.
  induction 1 as [|r l [v Hv] _ IH]; simpl; [done|].
  intros Hno. apply Forall_cons in Hno as [Hr Hl].
  unfold getitem. rewrite Hv. simpl. rewrite (IH Hl). simpl.
  rewrite decide_False; [done|]. intros ->. by apply Hr.
Qed.

Lemma select_id_first l id i r :
  Forall has_id l → first_with_id l id i r →
  ∃ rest, AgDB.select_id l id = Ok (r :: rest).
Proof.
  intros Hl. revert i. induction Hl as [|r0 l [v Hv] Hl IH]; intros i (Hi & Hr & Hfirst).
  { by rewrite lookup_nil in Hi. }
  simpl. unfold getitem. rewrite Hv. simpl.
  destruct (select_id_total l id Hl) as [found Hfound]. rewrite Hfound. simpl.
  destruct i as [|i].
  - simpl in Hi. injection Hi as ->. rewrite Hr in Hv. injection Hv as <-.
    rewrite decide_True by done. by eexists.
  - rewrite decide_False.
    + destruct (IH i) as [rest Hrest].
      * split_and!; [done..|]. intros j r' Hj Hr'. apply (Hfirst (S j)); [lia|done].
      * rewrite Hrest in Hfound. injection Hfound as <-. by eexists.
    + intros ->. by apply (Hfirst 0 r0); [lia|done|].
Qed.

Lemma index_first l id i r :
  first_with_id l id i r → AgDB.index l r = Ok i.
Proof.
  intros (Hi & Hr & Hfirst). unfold AgDB.index.
  assert (list_find (fun y => y = r) l = Some (i, r)) as ->; [|done].
  apply list_find_Some. split_and!; [done..|].
  intros j y Hy Hj ->. by apply (Hfirst j r).
Qed.

(** The call on an item whose identifier no record has. *)
Lemma update_if_needed_new (p : AgDB.process) (g : game.t) :
  AgDB.select_id (AgDB.games_json (AgDB.ag p)) (game.id g) = Ok [] →
  AgDB.update_if_needed g p =
    (Ok (Some true),
     {| AgDB.ag := AgDB.set_games_json
                     (AgDB.games_json (AgDB.ag p) ++ [game.to_dict g]) (AgDB.ag p);
        AgDB.files := AgDB.files p;
        AgDB.stdout := AgDB.stdout p ++ ["adding " ++ game.id g ++ " to database"] |}).
Proof.
  intros Hs. unfold AgDB.update_if_needed, mbind, AgDB.M_bind. simpl.
  rewrite Hs. reflexivity.
Qed.

(** The call on an item whose identifier a record has. *)
Lemma update_if_needed_found (p : AgDB.process) (g : game.t) r rest d i :
  AgDB.select_id (AgDB.games_json (AgDB.ag p)) (game.id g) = Ok (r :: rest) →
  game.diff g (inl r) = Ok d →
  AgDB.index (AgDB.games_json (AgDB.ag p)) r = Ok i →
  AgDB.update_if_needed g p =
    (Ok None,
     if decide (d ≠ ∅) then
       {| AgDB.ag := AgDB.set_games_json
                       (alter (fun r => dict_update r d) i (AgDB.games_json (AgDB.ag p)))
                       (AgDB.ag p);
          AgDB.files := AgDB.files p;
          AgDB.stdout := AgDB.stdout p ++ ["Updating " ++ game.id g ++ " in database"] |}
     else p).
Proof.
  intros Hs Hd Hi. unfold AgDB.update_if_needed, mbind, AgDB.M_bind. simpl.
  rewrite Hs. simpl. rewrite Hd. simpl.
  destruct (decide (d ≠ ∅)); simpl; [|done]. rewrite Hi. reflexivity.
Qed.

(** C6. Upserting a parsed item: when no record has its identifier, the
    flattened record is appended; otherwise the first record with that
    identifier is replaced in place by its merge with the diff, in which
    the keys of the diff have the diff's values and every other key keeps
    the value it had, and no other record changes. *)
Theorem C6_upsert_merges (p : AgDB.process) (g : game.t) :
  let js := AgDB.games_json (AgDB.ag p) in
  Forall has_id js →
  game.info g ≠ ∅ →
  (Forall (fun r => r !! "id" ≠ Some (game.id g)) js →
     ∃ p', AgDB.update_if_needed g p = (Ok (Some true), p') ∧
       AgDB.games_json (AgDB.ag p') = (js ++ [game.to_dict g])%list) ∧
  (∀ i r, first_with_id js (game.id g) i r →
     ∃ d p', game.diff g (inl r) = Ok d ∧
       AgDB.update_if_needed g p = (Ok None, p') ∧
       AgDB.games_json (AgDB.ag p') = <[i := dict_update r d]> js ∧
       (∀ k v, d !! k = Some v → dict_update r d !! k = Some v) ∧
       (∀ k, d !! k = None → dict_update r d !! k = r !! k) ∧
       (∀ k, is_Some (r !! k) → is_Some (dict_update r d !! k)) ∧
       (∀ j, j ≠ i → AgDB.games_json (AgDB.ag p') !! j = js !! j) ∧
       length (AgDB.games_json (AgDB.ag p')) = length js).
Proof.
  intros js Hids Hinfo. split.
  - intros Hno. eexists. split.
    + apply update_if_needed_new. by apply select_id_none.
    + reflexivity.
  - intros i r Hfirst.
    destruct (select_id_first js _ i r Hids Hfirst) as [rest Hsel].
    pose proof (index_first js _ i r Hfirst) as Hidx.
    pose proof (diff_nonempty_info g r Hinfo) as Hd.
    set (d := map_fold (game.diff_step r) ∅ (game.to_dict g)) in *.
    assert (alter (fun r => dict_update r d) i js = <[i := dict_update r d]> js) as Halt.
    { rewrite list_insert_alter. apply list_alter_ext; [|done].
      intros x Hx. destruct Hfirst as (Hi & _). congruence. }
    pose proof (update_if_needed_found p g r rest d i Hsel Hd Hidx) as Hup.
    assert (∃ p', AgDB.update_if_needed g p = (Ok None, p') ∧
              AgDB.games_json (AgDB.ag p') = <[i := dict_update r d]> js)
      as (p' & Hp' & Hjs).
    { destruct (decide (d ≠ ∅)) as [Hne|He]; eexists; (split; [exact Hup|]).
      - simpl. exact Halt.
      - apply dec_stable in He. rewrite He, dict_update_empty.
        symmetry. apply list_insert_id. by destruct Hfirst. }
    exists d, p'. split; [done|]. split; [done|]. rewrite Hjs.
    split_and!.
    + done.
    + intros k v. apply dict_update_lookup_Some.
    + intros k. apply dict_update_lookup_None.
    + intros k [v Hv]. destruct (d !! k) as [v'|] eqn:Hk.
      * exists v'. by apply dict_update_lookup_Some.
      * exists v. by rewrite dict_update_lookup_None.
    + intros j Hj. by apply list_lookup_insert_ne.
    + apply length_insert.
Qed.

(** ** Sorting by identifier *)

Lemma keyed_total l : Forall has_id l → ∃ dec, AgDB.keyed l = Ok dec.
Proof.
  induction 1 as [|r l [v Hv] _ [dec IH]]; simpl; [by eexists|].
  unfold getitem. rewrite Hv. simpl. rewrite IH. simpl. by eexists.
Qed.

Lemma keyed_spec l dec :
  AgDB.keyed l = Ok dec →
  snd <$> dec = l ∧ Forall (fun x => x.2 !! "id" = Some x.1) dec.
Proof.
  revert dec. induction l as [|r l IH]; intros dec; simpl.
  { intros [= <-]. by split. }
  unfold getitem. destruct (r !! "id") as [v|] eqn:Hv; simpl; [|done].
  destruct (AgDB.keyed l) as [dec'|]; simpl; [|done].
  intros [= <-]. destruct (IH dec' eq_refl) as [Hl Hk].
  split; [by rewrite fmap_cons, Hl|]. by constructor.
Qed.

Lemma keyed_missing_id l :
  ¬ Forall has_id l → AgDB.keyed l = Raise KeyError.
Proof.
  induction l as [|r l IH]; intros Hno; [by destruct Hno|]. simpl.
  unfold getitem. destruct (r !! "id") as [v|] eqn:Hv; simpl; [|done].
  rewrite IH; [done|]. intros Hl. apply Hno. constructor; [by exists v|done].
Qed.

Lemma insert_by_key_perm x l : AgDB.insert_by_key x l ≡ₚ x :: l.
Proof.
  induction l as [|y l IH]; simpl; [done|].
  destruct (String.leb x.1 y.1); [done|]. rewrite IH. apply Permutation_swap.
Qed.

Lemma insert_by_key_sorted x l :
  StronglySorted key_le l → StronglySorted key_le (AgDB.insert_by_key x l).
Proof.
  induction 1 as [|y l Hl IH Hy]; simpl.
  { repeat constructor. }
  destruct (String.leb x.1 y.1) eqn:Hxy.
  - constructor; [by constructor|]. constructor.
    + unfold key_le, String.le. by rewrite Hxy.
    + eapply Forall_impl; [exact Hy|]. intros z Hz. unfold key_le in *.
      etrans; [|exact Hz]. unfold String.le. by rewrite Hxy.
  - constructor; [done|]. rewrite insert_by_key_perm. constructor; [|done].
    unfold key_le. destruct (total String.le y.1 x.1) as [Hle|Hle]; [done|].
    unfold String.le in Hle. by rewrite Hxy in Hle.
Qed.

Lemma sort_by_key_sorted dec : StronglySorted key_le (foldr AgDB.insert_by_key [] dec).
Proof.
  induction dec as [|x dec IH]; simpl; [constructor|]. by apply insert_by_key_sorted.
Qed.

Lemma sort_by_key_perm dec : foldr AgDB.insert_by_key [] dec ≡ₚ dec.
Proof.
  induction dec as [|x dec IH]; simpl; [done|]. by rewrite insert_by_key_perm, IH.
Qed.

Lemma undecorate_sorted dec :
  Forall (fun x => x.2 !! "id" = Some x.1) dec →
  StronglySorted key_le dec → StronglySorted id_le (snd <$> dec).
Proof.
  intros Hk Hs. induction Hs as [|x l Hl IH Hx]; simpl; [constructor|].
  apply Forall_cons in Hk as [Hkx Hkl]. constructor; [by apply IH|].
  apply Forall_fmap. rewrite Forall_forall in Hx, Hkl. apply Forall_forall.
  intros y Hy. exists x.1, y.1. split_and!; [done|by apply Hkl|by apply Hx].
Qed.

(** [sorted] returns the records it was given, ordered by identifier. *)
Lemma sorted_by_id_spec l :
  Forall has_id l →
  ∃ s, AgDB.sorted_by_id l = Ok s ∧ s ≡ₚ l ∧ StronglySorted id_le s.
Proof.
  intros Hl. destruct (keyed_total l Hl) as [dec Hdec].
  destruct (keyed_spec l dec Hdec) as [Hsnd Hk].
  exists (snd <$> foldr AgDB.insert_by_key [] dec). split_and!.
  - unfold AgDB.sorted_by_id. by rewrite Hdec.
  - by rewrite sort_by_key_perm, Hsnd.
  - apply undecorate_sorted; [|apply sort_by_key_sorted].
    by rewrite sort_by_key_perm.
Qed.

Lemma save_game_json_run `{World} (p : AgDB.process) fn s :
  AgDB.sorted_by_id (AgDB.games_json (AgDB.ag p)) = Ok s →
  fn ≠ "" → open_w fn = Ok tt →
  AgDB.save_game_json fn p =
    (Ok tt, {| AgDB.ag := AgDB.set_games_json s (AgDB.ag p);
               AgDB.files := <[fn := json_dump s]> (AgDB.files p);
               AgDB.stdout := AgDB.stdout p |}).
Proof.
  intros Hs Hfn Hopen.
  unfold AgDB.save_game_json, AgDB.write_file, mbind, AgDB.M_bind. simpl.
  rewrite Hs. simpl. rewrite decide_False by done. simpl. rewrite Hopen.
  reflexivity.
Qed.

(** When the file cannot be opened the collection is sorted all the
    same, and no file changes. *)
Lemma save_game_json_not_opened `{World} (p : AgDB.process) fn s e :
  AgDB.sorted_by_id (AgDB.games_json (AgDB.ag p)) = Ok s →
  fn = "" ∧ e = FileNotFoundError ∨ fn ≠ "" ∧ open_w fn = Raise e →
  AgDB.save_game_json fn p =
    (Raise e, {| AgDB.ag := AgDB.set_games_json s (AgDB.ag p);
                 AgDB.files := AgDB.files p;
                 AgDB.stdout := AgDB.stdout p |}).
Proof.
  intros Hs Hfn.
  unfold AgDB.save_game_json, AgDB.write_file, mbind, AgDB.M_bind. simpl.
  rewrite Hs. simpl. destruct Hfn as [[-> ->]|[Hfn Hopen]].
  - reflexivity.
  - rewrite decide_False by done. simpl. by rewrite Hopen.
Qed.

Lemma load_game_json_run `{World} (p : AgDB.process) fn text v :
  fn ≠ "" →
  AgDB.files p !! fn = Some text →
  json_load text = Ok v →
  AgDB.load_game_json fn p =
    (Ok tt, {| AgDB.ag := AgDB.set_games_json v (AgDB.ag p);
               AgDB.files := AgDB.files p;
               AgDB.stdout := AgDB.stdout p |}).
Proof.
  intros Hfn Hf Hv. unfold AgDB.load_game_json. rewrite decide_False by done.
  unfold mbind, AgDB.M_bind. simpl. rewrite Hf. simpl. rewrite Hv. reflexivity.
Qed.

(** C9. Saving a collection of records to a file that can be opened,
    and loading that file afterwards, in whatever state the object is
    by then, gives a collection that is sorted by identifier and holds
    the same records as the collection before the save, whatever their
    order was (for the empty collection too). The codec is the
    library's: what it reads back from the text it wrote for the sorted
    collection is that collection. *)
Theorem C9_save_load_roundtrip `{World} (p : AgDB.process) (fn : string) :
  Forall has_id (AgDB.games_json (AgDB.ag p)) →
  fn ≠ "" → open_w fn = Ok tt →
  (∀ saved, AgDB.sorted_by_id (AgDB.games_json (AgDB.ag p)) = Ok saved →
            json_load (json_dump saved) = Ok saved) →
  ∃ saved p', AgDB.save_game_json fn p = (Ok tt, p') ∧
    saved ≡ₚ AgDB.games_json (AgDB.ag p) ∧
    StronglySorted id_le saved ∧
    AgDB.games_json (AgDB.ag p') = saved ∧
    AgDB.files p' !! fn = Some (json_dump saved) ∧
    (∀ q, AgDB.files q !! fn = AgDB.files p' !! fn →
       ∃ q', AgDB.load_game_json fn q = (Ok tt, q') ∧
         AgDB.games_json (AgDB.ag q') = saved) ∧
    ∃ p'', (AgDB.save_game_json fn;; AgDB.load_game_json fn) p = (Ok tt, p'') ∧
      AgDB.games_json (AgDB.ag p'') = saved.
Proof.
  intros Hids Hfn Hopen Hcodec.
  destruct (sorted_by_id_spec _ Hids) as (s & Hs & Hperm & Hsorted).
  pose proof (save_game_json_run p fn s Hs Hfn Hopen) as Hsave.
  exists s. eexists. split; [exact Hsave|]. simpl.
  split_and!; [done|done|done|apply lookup_insert_eq| |].
  - intros q Hq. rewrite lookup_insert_eq in Hq. eexists. split.
    + eapply load_game_json_run; [done|exact Hq|]. by apply Hcodec.
    + done.
  - eexists. split.
    + unfold mbind at 1. unfold AgDB.M_bind at 1. rewrite Hsave.
      eapply load_game_json_run; [done|apply lookup_insert_eq|]. by apply Hcodec.
    + done.
Qed.

(** ** The crawl loop *)

Section crawl.
Context `{World}.

Lemma update_if_needed_has_id (p : AgDB.process) (g : game.t) :
  Forall has_id (AgDB.games_json (AgDB.ag p)) →
  Forall has_id (AgDB.games_json (AgDB.ag (AgDB.update_if_needed g p).2)).
Proof.
  intros Hids. unfold AgDB.update_if_needed, mbind, AgDB.M_bind. simpl.
  destruct (AgDB.select_id _ _) as [[|r rest]|]; simpl; [|..|done].
  - apply Forall_app. split; [done|]. constructor; [apply to_dict_id|constructor].
  - destruct (game.diff g (inl r)) as [d|]; simpl; [|done].
    destruct (decide (d ≠ ∅)); simpl; [|done].
    destruct (AgDB.index _ r) as [i|]; simpl; [|done].
    apply Forall_alter; [done|]. intros x _ [v Hv].
    destruct (d !! "id") as [v'|] eqn:Hd.
    + exists v'. by apply dict_update_lookup_Some.
    + exists v. by rewrite dict_update_lookup_None.
Qed.

Lemma item_has_id (p : AgDB.process) (g : game.t) :
  Forall has_id (AgDB.games_json (AgDB.ag p)) →
  Forall has_id (AgDB.games_json (AgDB.ag (item g p).2)).
Proof.
  intros Hids. unfold item, mbind, AgDB.M_bind. simpl.
  destruct (game.parse g) as [g'|]; simpl; [|done].
  pose proof (update_if_needed_has_id
    {| AgDB.ag := AgDB.ag p; AgDB.files := AgDB.files p;
       AgDB.stdout := AgDB.stdout p ++ ["retrieving " ++ game.id g] |} g' Hids) as Hu.
  destruct (AgDB.update_if_needed g' _) as [[r|e] p2]; simpl in *; done.
Qed.

(** The handler raises nothing and leaves the collection alone. *)
Lemma handler_run (errors : nat) (e : exn) (p : AgDB.process) :
  ∃ p',
    handler errors e p =
      (Ok (if decide (e = KeyboardInterrupt) then (Break, errors)
           else if decide (5 < S errors) then (Break, S errors)
           else (Next, S errors)), p') ∧
    AgDB.ag p' = AgDB.ag p ∧ AgDB.files p' = AgDB.files p.
Proof.
  unfold handler. destruct (decide (e = KeyboardInterrupt)); [by exists p|].
  unfold mbind, AgDB.M_bind. simpl.
  destruct (decide (5 < S errors)); simpl; eexists; (split; [reflexivity|done]).
Qed.

(** One turn of the loop: whatever the [try] block does, the turn ends
    with a decision and an error count, never with an exception. *)
Lemma turn_run (g : game.t) (errors : nat) (p : AgDB.process) :
  ∃ f errors' p',
    AgDB.try_except (item g;; mret (Next, errors)) (handler errors) p
      = (Ok (f, errors'), p') ∧
    AgDB.ag p' = AgDB.ag (item g p).2 ∧
    AgDB.files p' = AgDB.files (item g p).2 ∧
    ((f = Next ∧ errors' = errors ∧ ∃ u, (item g p).1 = Ok u) ∨
     (f = Break ∧ errors' = errors ∧ (item g p).1 = Raise KeyboardInterrupt) ∨
     (errors' = S errors ∧ (f = Break ↔ 5 < errors') ∧
      ∃ e, (item g p).1 = Raise e ∧ e ≠ KeyboardInterrupt)).
Proof.
  unfold AgDB.try_except, mbind at 1. unfold AgDB.M_bind.
  destruct (item g p) as [[u|e] p1]; simpl.
  - exists Next, errors, p1. split_and!; [done..|]. left. eauto.
  - destruct (handler_run errors e p1) as (p' & -> & Hag & Hfiles).
    destruct (decide (e = KeyboardInterrupt)) as [->|Hne].
    + exists Break, errors, p'. split_and!; [done..|]. right. left. done.
    + destruct (decide (5 < S errors)).
      * exists Break, (S errors), p'. split_and!; [done..|]. right. right.
        split_and!; [done|done|by eexists].
      * exists Next, (S errors), p'. split_and!; [done..|]. right. right.
        split_and!; [done|split; [done|lia]|by eexists].
Qed.

Lemma crawl_cons (g : game.t) (games : list game.t) (errors : nat) (p : AgDB.process) f errors' p' :
  AgDB.try_except (item g;; mret (Next, errors)) (handler errors) p
    = (Ok (f, errors'), p') →
  crawl (g :: games) errors p =
    match f with Next => crawl games errors' p' | Break => (Ok errors', p') end.
Proof.
  intros Ht. cbn [crawl]. unfold mbind at 1. unfold AgDB.M_bind at 1.
  rewrite Ht. by destruct f.
Qed.

(** The loop ends normally, its counter at most one above the limit (or
    one above where it started), and keeps every record identified. *)
Lemma crawl_run (games : list game.t) (errors : nat) (p : AgDB.process) :
  ∃ errors' p', crawl games errors p = (Ok errors', p') ∧
    (errors ≤ errors')%nat ∧ (errors' ≤ max (S errors) 6)%nat ∧
    (Forall has_id (AgDB.games_json (AgDB.ag p)) →
     Forall has_id (AgDB.games_json (AgDB.ag p'))) ∧
    AgDB.files p' = AgDB.files p.
Proof.
  revert errors p. induction games as [|g games IH]; intros errors p.
  { exists errors, p. split_and!; [done|lia|lia|done|done]. }
  destruct (turn_run g errors p) as (f & e1 & p1 & Ht & Hag & Hfiles & Hcases).
  rewrite (crawl_cons _ _ _ _ _ _ _ Ht).
  assert (AgDB.files (item g p).2 = AgDB.files p) as Hfi.
  { unfold item, mbind, AgDB.M_bind. simpl.
    destruct (game.parse g) as [g'|]; simpl; [|done].
    unfold AgDB.update_if_needed, mbind, AgDB.M_bind. simpl.
    destruct (AgDB.select_id _ _) as [[|r rest]|]; simpl; [done| |done].
    destruct (game.diff g' (inl r)) as [d|]; simpl; [|done].
    destruct (decide (d ≠ ∅)); simpl; [|done].
    destruct (AgDB.index _ r) as [i|]; simpl; done. }
  assert ((errors ≤ e1)%nat ∧ (f = Next → (e1 ≤ max errors 5)%nat) ∧ (e1 ≤ max (S errors) 6)%nat)
    as (He1 & Hnext & Hmax).
  { destruct Hcases as [(-> & -> & _)|[(-> & -> & _)|(-> & Hbrk & _)]];
      split_and!; try lia; try done.
    intros ->. destruct (decide (5 < S errors)); [|lia].
    by assert (Next = Break) by by apply Hbrk. }
  assert (Forall has_id (AgDB.games_json (AgDB.ag p)) →
          Forall has_id (AgDB.games_json (AgDB.ag p1))) as Hinv.
  { intros Hids. rewrite Hag. by apply item_has_id. }
  destruct f.
  - destruct (IH e1 p1) as (e2 & p2 & Hc & Hle & Hmax2 & Hinv2 & Hf2).
    exists e2, p2. specialize (Hnext eq_refl).
    split_and!; [done|lia|lia|auto|congruence].
  - exists e1, p1. split_and!; [done|lia|lia|auto|congruence].
Qed.

(** A run that ends above the limit broke off at some item: what comes
    after that item in the list has no part in the result. *)
Lemma crawl_breaks (games : list game.t) (errors : nat) (p : AgDB.process) errors' p' :
  crawl games errors p = (Ok errors', p') → (errors ≤ 5)%nat → 5 < errors' →
  ∃ pre g rest, games = (pre ++ g :: rest)%list ∧
    ∀ rest', crawl (pre ++ g :: rest') errors p = (Ok errors', p').
Proof.
  revert errors p. induction games as [|g games IH]; intros errors p Hc Hle Hgt.
  { simpl in Hc. injection Hc as <- <-. lia. }
  destruct (turn_run g errors p) as (f & e1 & p1 & Ht & _ & _ & Hcases).
  rewrite (crawl_cons _ _ _ _ _ _ _ Ht) in Hc. destruct f.
  - assert (e1 ≤ 5)%nat as He1.
    { destruct Hcases as [(_ & -> & _)|[(_ & -> & _)|(-> & Hbrk & _)]]; [done..|].
      destruct (decide (5 < S errors)); [|lia].
      by assert (Next = Break) by by apply Hbrk. }
    destruct (IH e1 p1 Hc He1 Hgt) as (pre & g' & rest & -> & Hrest).
    exists (g :: pre), g', rest. split; [done|]. intros rest'.
    rewrite <- app_comm_cons, (crawl_cons _ _ _ _ _ _ _ Ht). apply Hrest.
  - injection Hc as <- <-. exists [], g, games. split; [done|]. intros rest'.
    simpl app. by rewrite (crawl_cons _ _ _ _ _ _ _ Ht).
Qed.

Lemma turn_ok (g : game.t) (errors : nat) (p : AgDB.process) u :
  (item g p).1 = Ok u →
  AgDB.try_except (item g;; mret (Next, errors)) (handler errors) p
    = (Ok (Next, errors), (item g p).2).
Proof.
  intros Hi. unfold AgDB.try_except, mbind at 1. unfold AgDB.M_bind at 1.
  destruct (item g p) as [[u'|e] p1]; simpl in *; done.
Qed.

Lemma turn_failure (g : game.t) (errors : nat) (p : AgDB.process) e :
  (item g p).1 = Raise e → e ≠ KeyboardInterrupt →
  AgDB.try_except (item g;; mret (Next, errors)) (handler errors) p
    = if decide (5 < S errors)
      then (Ok (Break, S errors), after_limit (S errors) (item g p).2)
      else (Ok (Next, S errors), after_failure (S errors) (item g p).2).
Proof.
  intros Hi Hne. unfold AgDB.try_except, mbind at 1. unfold AgDB.M_bind at 1.
  destruct (item g p) as [[u'|e'] p1]; simpl in *; [done|].
  injection Hi as ->. unfold handler. rewrite decide_False by done.
  unfold mbind, AgDB.M_bind, AgDB.print, after_limit, after_failure. simpl.
  destruct (decide (5 < S errors)); simpl; by rewrite <- !app_assoc.
Qed.

(** The loop over items that pass goes on with what follows them. *)
Lemma crawl_passes (pre rest : list game.t) (k k' : nat) (p p' : AgDB.process) :
  passes k p pre k' p' →
  crawl (pre ++ rest) k p = crawl rest k' p'.
Proof.
  induction 1 as [k p|k p g games k' p' u Hi _ IH|k p g games k' p' e Hi Hne Hk _ IH].
  - done.
  - rewrite <- app_comm_cons, (crawl_cons _ _ _ _ _ _ _ (turn_ok g k p u Hi)).
    exact IH.
  - pose proof (turn_failure g k p e Hi Hne) as Ht.
    rewrite decide_False in Ht by lia.
    rewrite <- app_comm_cons, (crawl_cons _ _ _ _ _ _ _ Ht). exact IH.
Qed.

End crawl.

(** C7. When five items of a crawl have failed and a sixth fails (each
    in its [try] block, with an exception other than the Ctrl-C), the
    loop ends at that item with its count at six: the state is the one
    that the failing item and the handler left, whatever items come
    after it, so none of them is processed. No exception leaves the
    loop, in this run or any other. The collection reached is then
    sorted and written to the file, when that can be opened. *)
Theorem C7_circuit_breaker `{World} (pre rest : list game.t) (g : game.t)
    (e : exn) (fn : string) (p p1 : AgDB.process) :
  passes 0 p pre 5 p1 →
  (item g p1).1 = Raise e → e ≠ KeyboardInterrupt →
  Forall has_id (AgDB.games_json (AgDB.ag p)) →
  fn ≠ "" → open_w fn = Ok tt →
  let p' := after_limit 6 (item g p1).2 in
  crawl (pre ++ g :: rest) 0 p = (Ok 6, p') ∧
  (∃ saved,
     (crawl (pre ++ g :: rest) 0;; AgDB.save_game_json fn) p =
       (Ok tt, {| AgDB.ag := AgDB.set_games_json saved (AgDB.ag p');
                  AgDB.files := <[fn := json_dump saved]> (AgDB.files p');
                  AgDB.stdout := AgDB.stdout p' |}) ∧
     AgDB.sorted_by_id (AgDB.games_json (AgDB.ag p')) = Ok saved ∧
     saved ≡ₚ AgDB.games_json (AgDB.ag p')) ∧
  (∀ games errors p0, ∃ n q, crawl games errors p0 = (Ok n, q) ∧
     (n ≤ max (S errors) 6)%nat).
Proof.
  intros Hpre Hg Hne Hids Hfn Hopen p'.
  assert (crawl (pre ++ g :: rest) 0 p = (Ok 6, p')) as Hc.
  { rewrite (crawl_passes pre (g :: rest) 0 5 p p1 Hpre).
    pose proof (turn_failure g 5 p1 e Hg Hne) as Ht.
    rewrite decide_True in Ht by lia.
    by rewrite (crawl_cons _ _ _ _ _ _ _ Ht). }
  split_and!.
  - exact Hc.
  - destruct (crawl_run (pre ++ g :: rest) 0 p) as (n & q & Hc' & _ & _ & Hinv & _).
    rewrite Hc in Hc'. injection Hc' as <- <-.
    destruct (sorted_by_id_spec _ (Hinv Hids)) as (saved & Hs & Hperm & _).
    exists saved. split_and!; [|done..].
    unfold mbind at 1. unfold AgDB.M_bind at 1. rewrite Hc.
    by apply save_game_json_run.
  - intros games errors p0.
    destruct (crawl_run games errors p0) as (n & q & Hc' & _ & Hmax & _).
    by exists n, q.
Qed.

Lemma C7_circuit_breaker_witness :
  @crawl world_down ten_games 0 fresh =
    (Ok 6,
     {| AgDB.ag := AgDB.ag fresh; AgDB.files := ∅;
        AgDB.stdout :=
          ["retrieving 1"; "Exception occurred"; "error #1";
           "retrieving 2"; "Exception occurred"; "error #2";
           "retrieving 3"; "Exception occurred"; "error #3";
           "retrieving 4"; "Exception occurred"; "error #4";
           "retrieving 5"; "Exception occurred"; "error #5";
           "retrieving 6"; "Exception occurred"; "error #6";
           "error limit reached, postponing further download"] |}).
Proof.
  edestruct (@C7_circuit_breaker world_down (take 5 ten_games) (drop 6 ten_games)
               (game.init "6" "https://audiogames.net/db.php?id=6")
               RequestException "out.json" fresh) as (Hc & _).
  - repeat (eapply passes_failure; [vm_compute; reflexivity|done|lia|]).
    apply passes_nil.
  - vm_compute; reflexivity.
  - done.
  - constructor.
  - done.
  - reflexivity.
  - etrans; [exact Hc|]. vm_compute. reflexivity.
Defined.

(** The run of the specification: ten items, every request fails. The
    sixth failure ends the loop, four items are never retrieved, and the
    empty collection is written. *)
Example circuit_breaker_example :
  let r := (@crawl world_down ten_games 0;; @AgDB.save_game_json world_down "out.json")
             fresh in
  r.1 = Ok tt ∧
  (@crawl world_down ten_games 0 fresh).1 = Ok 6 ∧
  filter (fun line => String.prefix "retrieving " line = true) (AgDB.stdout r.2)
    = ["retrieving 1"; "retrieving 2"; "retrieving 3";
       "retrieving 4"; "retrieving 5"; "retrieving 6"] ∧
  AgDB.files r.2 = {[ "out.json" := write_records [] ]}.
Proof. vm_compute. done. Qed.

(** Failures add up over the run, whatever comes between them: five
    failures, a success and a sixth failure end the loop. *)
Example failures_are_cumulative :
  let games := (fun i => game.init i "nowhere") <$> ["1"; "2"; "3"; "4"; "5"] in
  let r := @crawl world1
             (games ++ [game.init "g" "u"; game.init "6" "nowhere";
                        game.init "7" "nowhere"])%list 0 fresh in
  r.1 = Ok 6 ∧
  filter (fun line => String.prefix "retrieving " line = true) (AgDB.stdout r.2)
    = ["retrieving 1"; "retrieving 2"; "retrieving 3"; "retrieving 4";
       "retrieving 5"; "retrieving g"; "retrieving 6"] ∧
  length (AgDB.games_json (AgDB.ag r.2)) = 1.
Proof. vm_compute. done. Qed.

(** ** The detail parser *)

Lemma node_tree_ind (P : node → Prop) :
  (∀ s, P (NavigableString s)) →
  (∀ nm a cs, Forall P cs → P (Tag nm a cs)) →
  ∀ n, P n.
Proof.
  intros Hs Ht. fix IH 1. intros [s|nm a cs]; [apply Hs|]. apply Ht.
  induction cs as [|c cs IHcs]; constructor; [apply IH|exact IHcs].
Qed.

Lemma string_app_nil_r (s : string) : s ++ "" = s.
Proof.
  induction s as [|a s IH]; [done|].
  change (String a s ++ "") with (String a (s ++ "")). by rewrite IH.
Qed.

Lemma string_app_assoc (s t u : string) : (s ++ t) ++ u = s ++ (t ++ u).
Proof.
  induction s as [|a s IH]; [done|].
  change (String a (((s ++ t) ++ u)) = String a (s ++ (t ++ u))). by rewrite IH.
Qed.

(** The string a tag leads to is all the text it has. *)
Lemma string_of_text (n : node) (s : string) : string_of n = Some s → text n = s.
Proof.
  revert s. induction n as [s0|nm a cs IH] using node_tree_ind; intros s; simpl.
  { by intros [= ->]. }
  destruct cs as [|c [|c' cs]]; [done| |done].
  intros Hc. apply Forall_cons in IH as [IHc _].
  change (text c ++ "" = s). rewrite string_app_nil_r. by apply IHc.
Qed.

Lemma is_description_heading (e : node) :
  game.is_description e = true → is_heading e ∧ text e = "Description".
Proof.
  unfold game.is_description, named. intros Hd.
  apply andb_prop in Hd as [Hn Hs].
  apply bool_decide_eq_true in Hn. apply bool_decide_eq_true in Hs. split.
  - unfold is_heading. rewrite Hn. set_solver.
  - by apply string_of_text.
Qed.

Lemma after_first_none (p : node → bool) (l : list node) :
  Forall (fun e => p e = false) l → after_first p l = None.
Proof. induction 1 as [|e l He _ IH]; simpl; [done|]. by rewrite He. Qed.

Lemma after_first_split (p : node → bool) (pre : list node) h rest :
  Forall (fun e => p e = false) pre → p h = true →
  after_first p (pre ++ h :: rest) = Some rest.
Proof.
  induction 1 as [|e l He _ IH]; simpl; intros Hh; [by rewrite Hh|].
  rewrite He. by apply IH.
Qed.

(** What can go wrong in a table row: a missing cell or a link without
    a target. *)
Lemma parse_row_raises row info e :
  game.parse_row row info = Raise e → e = IndexError ∨ e = KeyError.
Proof.
  unfold game.parse_row, getindex, tag_getitem, getitem.
  destruct (findAll "td" row !! 0) as [c0|]; simpl; [|intros [= <-]; by left].
  destruct (findAll "td" row !! 1) as [c1|]; simpl; [|intros [= <-]; by left].
  destruct (find "a" c1) as [a|]; simpl; [|done].
  destruct (attrs_of a !! "href"); simpl; [done|]. intros [= <-]. by right.
Qed.

Lemma table_pass_raises rows info e :
  for_acc game.parse_row rows info = Raise e → e = IndexError ∨ e = KeyError.
Proof.
  revert info. induction rows as [|row rows IH]; intros info; simpl; [done|].
  destruct (game.parse_row row info) as [info'|e'] eqn:Hr; simpl.
  - apply IH.
  - intros [= <-]. by eapply parse_row_raises.
Qed.

Section detail.
Context `{World}.

(** The description loop over [between ++ stop :: post] appends the
    markup of the elements of [between] and nothing else. *)
Lemma description_loop_stops between stop post acc :
  Forall (fun e => game.is_break e = false) between →
  game.is_break stop = true →
  game.description_loop (between ++ stop :: post) acc
    = Ok (acc ++ foldr (fun e s => str_tag e ++ s) "" between).
Proof.
  intros Hb Hs. revert acc.
  induction Hb as [|e l He _ IH]; intros acc; simpl.
  - by rewrite Hs, string_app_nil_r.
  - rewrite He, IH. by rewrite string_app_assoc.
Qed.

(** Without a [Description] heading the parse fails: in the table pass
    when a row is short of cells or a link of a target, else at the
    heading that is not there. *)
Lemma parse_soup_no_description soup info :
  (∀ e, e ∈ descendants soup → is_heading e → text e ≠ "Description") →
  ∃ e, game.parse_soup soup info = Raise e ∧
    (e = AttributeError ∨ e = IndexError ∨ e = KeyError) ∧
    (is_Ok (for_acc game.parse_row (findAll "tr" soup) info) → e = AttributeError).
Proof.
  intros Hno. unfold game.parse_soup.
  destruct (for_acc game.parse_row (findAll "tr" soup) info) as [info'|e] eqn:Ht; simpl.
  - rewrite after_first_none.
    + exists AttributeError. split_and!; [done|by left|done].
    + apply Forall_forall. intros e He. apply not_true_is_false. intros Hd.
      apply is_description_heading in Hd as [Hh Htxt]. by apply (Hno e).
  - exists e. split_and!; [done| |by intros [? ?]].
    apply table_pass_raises in Ht. tauto.
Qed.

End detail.

(** C3, as the code has it. When the elements of the page, taken one
    by one in document order at every depth, are [pre], the first level-2
    heading whose string is [Description], the K elements [between], the
    first level-2 heading after it whose text is Admin, Community or
    Quick Links, and [post], then the parse ends as its table pass ends,
    and when that succeeds the value stored under [description] is the
    concatenation, in that order, of the markup of each of the K elements
    of [between]. The markup of an element holds the markup of all that
    is inside it. *)
Theorem C3_description_between `{World} (g : game.t) (html : string)
    (pre between post : list node) (h stop : node) :
  session_get (game.db_url g) = Ok html →
  descendants (BeautifulSoup html) = (pre ++ h :: between ++ stop :: post)%list →
  Forall (fun e => game.is_description e = false) pre →
  game.is_description h = true →
  Forall (fun e => game.is_break e = false) between →
  game.is_break stop = true →
  game.parse g =
    match for_acc game.parse_row (findAll "tr" (BeautifulSoup html)) (game.info g) with
    | Ok info' =>
        Ok {| game.id := game.id g; game.db_url := game.db_url g;
              game.info := <["description" :=
                               foldr (fun e s => str_tag e ++ s) "" between]> info' |}
    | Raise e => Raise e
    end.
Proof.
  intros Hget Hdoc Hpre Hh Hbetween Hstop.
  unfold game.parse, game.parse_soup. rewrite Hget. simpl.
  destruct (for_acc game.parse_row _ _) as [info'|e]; simpl; [|done].
  rewrite Hdoc, (after_first_split _ _ _ _ Hpre Hh).
  by rewrite (description_loop_stops _ _ _ _ Hbetween Hstop).
Qed.

Lemma C3_description_between_witness :
  @game.parse world1 (game.init "g" "u") =
    Ok (game.mk "g" "u"
          {[ "Author" := "Jim"; "Home" := "http://x"; "description" := "<p>fun</p>" ]}).
Proof.
  rewrite (@C3_description_between world1 (game.init "g" "u") "u"
             (take 8 (descendants page1))
             [para [NavigableString "fun"]]
             [para [NavigableString "forum"]]
             (h2 "Description") (h2 "Community")).
  - vm_compute; reflexivity.
  - reflexivity.
  - reflexivity.
  - repeat constructor.
  - reflexivity.
  - repeat constructor.
  - reflexivity.
Defined.

(** Two nodes stand between the headings of [page_nested], the
    paragraph and the string [loose], and their markup is
    [<p>a<b>c</b></p>loose]: the stored description has the markup of
    [<b>] a second time and nothing of the string. On [page_boxed] the
    closing heading and the paragraph after it are inside the [div] that
    follows the [Description] heading: the stored description holds
    them. *)
Lemma C3_description_counterexample :
  @game.parse world6 (game.init "g" "nested")
    = Ok (game.mk "g" "nested" {[ "description" := "<p>a<b>c</b></p><b>c</b>" ]}) ∧
  "<p>a<b>c</b></p><b>c</b>" ≠ "<p>a<b>c</b></p>loose" ∧
  @game.parse world6 (game.init "g" "boxed")
    = Ok (game.mk "g" "boxed"
            {[ "description" :=
                 "<div><p>x</p><h2>Admin</h2><p>after</p></div><p>x</p>" ]}).
Proof. split_and!; [vm_compute; reflexivity|done|vm_compute; reflexivity]. Qed.

(** An element inside an element is walked over too, after its parent,
    and a string outside every element is not: here the markup of [<b>]
    comes twice and the string [loose] not at all. *)
Example description_nested_and_loose :
  (game.info <$> match @game.parse world2 (game.init "g" "nested") with
                 | Ok g' => Some g' | Raise _ => None end)
  = Some {[ "description" := "<p>a<b>c</b></p><b>c</b>" ]}.
Proof. vm_compute; reflexivity. Qed.

(** C8. On a page without a heading whose text is [Description] the
    parse raises (at the missing heading when the table pass went
    through), and the loop goes on: the error is counted, the collection
    and the files are as before, and the next items are processed unless
    the count has passed the limit. *)
Theorem C8_missing_description_skipped `{World} (g : game.t) (html : string)
    (games : list game.t) (errors : nat) (p : AgDB.process) :
  session_get (game.db_url g) = Ok html →
  (∀ e, e ∈ descendants (BeautifulSoup html) → is_heading e →
        text e ≠ "Description") →
  (∃ e, game.parse g = Raise e ∧
     (e = AttributeError ∨ e = IndexError ∨ e = KeyError) ∧
     (is_Ok (for_acc game.parse_row (findAll "tr" (BeautifulSoup html)) (game.info g))
      → e = AttributeError)) ∧
  ∃ p', AgDB.ag p' = AgDB.ag p ∧ AgDB.files p' = AgDB.files p ∧
    crawl (g :: games) errors p =
      if decide (5 < S errors) then (Ok (S errors), p')
      else crawl games (S errors) p'.
Proof.
  intros Hget Hno.
  destruct (parse_soup_no_description (BeautifulSoup html) (game.info g) Hno)
    as (e & Hsoup & He & Htable).
  assert (game.parse g = Raise e) as Hparse.
  { unfold game.parse. rewrite Hget. simpl. by rewrite Hsoup. }
  split; [by exists e|].
  assert (e ≠ KeyboardInterrupt) as Hne by (destruct He as [->|[->| ->]]; done).
  set (p1 := {| AgDB.ag := AgDB.ag p; AgDB.files := AgDB.files p;
                AgDB.stdout := AgDB.stdout p ++ ["retrieving " ++ game.id g] |}).
  destruct (handler_run errors e p1) as (p' & Hh & Hag & Hfiles).
  rewrite decide_False in Hh by done.
  exists p'. split_and!; [done..|].
  assert (AgDB.try_except (item g;; mret (Next, errors)) (handler errors) p
          = (Ok (if decide (5 < S errors) then (Break, S errors)
                 else (Next, S errors)), p')) as Ht.
  { unfold AgDB.try_except, item, mbind, AgDB.M_bind. simpl. rewrite Hparse.
    simpl. exact Hh. }
  destruct (decide (5 < S errors)); by rewrite (crawl_cons _ _ _ _ _ _ _ Ht).
Qed.

Lemma C8_missing_description_skipped_witness :
  @game.parse world2 (game.init "g" "bare") = Raise AttributeError ∧
  ∃ p', AgDB.ag p' = AgDB.ag fresh ∧
    @crawl world2 [game.init "g" "bare"; game.init "n" "nested"] 0 fresh
      = @crawl world2 [game.init "n" "nested"] 1 p'.
Proof.
  destruct (@C8_missing_description_skipped world2 (game.init "g" "bare") "bare"
              [game.init "n" "nested"] 0 fresh)
    as [(e & Hp & _ & He) (p' & Hag & _ & Hc)].
  - reflexivity.
  - intros e He _. revert e He. apply Forall_forall. vm_compute.
    repeat (constructor; [discriminate|]). constructor.
  - split.
    + rewrite Hp. f_equal. apply He. eexists. vm_compute. reflexivity.
    + exists p'. split; [exact Hag|]. exact Hc.
Defined.

(** ** The table pass *)

(** [rstrip] takes a run of the character off the end, *)
Lemma rstrip_suffix (c : ascii) (s : string) :
  ∃ n, s = rstrip c s ++ repeat_char n c.
Proof.
  induction s as [|a s [n IH]]; [by exists 0|]. simpl.
  destruct (rstrip c s) as [|b r] eqn:Hr.
  - destruct (decide (a = c)) as [->|Hne].
    + exists (S n). simpl. by rewrite IH at 1.
    + exists n. by rewrite IH at 1.
  - exists n. by rewrite IH at 1.
Qed.

(** and all of it: what is left does not end in that character. *)
Lemma rstrip_no_trailing (c : ascii) (s s' : string) :
  rstrip c s ≠ s' ++ String c "".
Proof.
  revert s'. induction s as [|a s IH]; intros s'; simpl.
  { by destruct s'. }
  destruct (rstrip c s) as [|b r] eqn:Hr.
  - destruct (decide (a = c)) as [->|Hne].
    + by destruct s'.
    + destruct s' as [|x [|y s'']]; [|done..]. intros [= ->]. done.
  - destruct s' as [|x s'']; [done|]. intros [= -> Heq]. by apply (IH s'').
Qed.

Lemma parse_row_entry (row : node) (k v : string) (info : gmap string string) :
  row_entry row k v → game.parse_row row info = Ok (<[k := v]> info).
Proof.
  intros (c0 & c1 & rest & Hcells & -> & Hv).
  unfold game.parse_row, getindex, tag_getitem, getitem. rewrite Hcells. simpl.
  destruct Hv as [(a & -> & Hhref)|[-> ->]]; [|done]. by rewrite Hhref.
Qed.

(** C2, as the code has it. When every row of the page has at least two
    cells (and a link in a second cell has a target), the table pass
    makes one entry of every row, in document order, a later entry
    replacing an earlier one of the same key: the key is the text of the
    first cell without its trailing colons, the value the target of the
    first link of the second cell or else its text. Cells after the
    second play no part, so a row of three cells makes its entry too. *)
Theorem C2_table_pass_first_two_cells (soup : node)
    (entries : list (string * string)) (info : gmap string string) :
  Forall2 (fun row kv => row_entry row kv.1 kv.2) (findAll "tr" soup) entries →
  for_acc game.parse_row (findAll "tr" soup) info
    = Ok (foldl (fun m kv => <[kv.1 := kv.2]> m) info entries).
Proof.
  generalize (findAll "tr" soup). intros rows Hrows. revert info.
  induction Hrows as [|row kv rows entries Hrow _ IH]; intros info; simpl; [done|].
  rewrite (parse_row_entry row kv.1 kv.2 info Hrow). simpl. apply IH.
Qed.

Lemma C2_table_pass_first_two_cells_witness :
  for_acc game.parse_row (findAll "tr" page_wide) ∅ = Ok {[ "Author" := "Jim" ]}.
Proof.
  rewrite (C2_table_pass_first_two_cells page_wide [("Author", "Jim")] ∅).
  - reflexivity.
  - constructor; [|constructor].
    exists (td [NavigableString "Author::"]), (td [NavigableString "Jim"]),
      [td [NavigableString "extra"]].
    split; [reflexivity|]. split; [reflexivity|]. right. split; reflexivity.
Defined.

(** A row of three cells is not passed over, and a row of one cell
    stops the parse. *)
Lemma C2_rows_not_ignored_counterexample :
  length <$> (findAll "td" <$> findAll "tr" page_wide) = [3] ∧
  @game.parse world2 (game.init "g" "wide")
    = Ok (game.mk "g" "wide" {[ "Author" := "Jim"; "description" := "" ]}) ∧
  @game.parse world2 (game.init "g" "wide")
    ≠ Ok (game.mk "g" "wide" {[ "description" := "" ]}) ∧
  length <$> (findAll "td" <$> findAll "tr" page_narrow) = [1] ∧
  @game.parse world2 (game.init "g" "narrow") = Raise IndexError.
Proof.
  split_and!; try (vm_compute; reflexivity).
  intros Heq. vm_compute in Heq. discriminate Heq.
Qed.

(** ** The listing parser *)

Section listing.
Context `{World}.

(** One pass of the option loop. *)
Lemma parse_option_run (db_base : string) (o : node) (v : string) (p : AgDB.process) :
  attrs_of o !! "value" = Some v →
  AgDB.parse_option db_base o p =
    (Ok tt,
     if decide (v = "Select") then p
     else
       {| AgDB.ag := AgDB.set_games
            (AgDB.games (AgDB.ag p) ++
             [game.init v
                (if startswith (db_base ++ "&" ++ urlencode_id v) "http"
                 then db_base ++ "&" ++ urlencode_id v
                 else urljoin (AgDB.url (AgDB.ag p))
                        (db_base ++ "&" ++ urlencode_id v))])
            (AgDB.ag p);
          AgDB.files := AgDB.files p;
          AgDB.stdout := AgDB.stdout p |}).
Proof.
  intros Hv. unfold AgDB.parse_option, mbind, AgDB.M_bind, tag_getitem, getitem.
  simpl. rewrite Hv. by destruct (decide (v = "Select")).
Qed.

Lemma parse_options_run (db_base : string) (options : list node)
    (values : list string) (p : AgDB.process) :
  Forall2 (fun o v => attrs_of o !! "value" = Some v) options values →
  ∃ p', AgDB.for_each (AgDB.parse_option db_base) options p = (Ok tt, p') ∧
    AgDB.games (AgDB.ag p') =
      (AgDB.games (AgDB.ag p) ++
       ((fun id => game.init id
          (if startswith (db_base ++ "&" ++ urlencode_id id) "http"
           then db_base ++ "&" ++ urlencode_id id
           else urljoin (AgDB.url (AgDB.ag p)) (db_base ++ "&" ++ urlencode_id id)))
        <$> filter (fun v => v ≠ "Select") values))%list ∧
    AgDB.url (AgDB.ag p') = AgDB.url (AgDB.ag p) ∧
    AgDB.games_json (AgDB.ag p') = AgDB.games_json (AgDB.ag p).
Proof.
  intros Hov. revert p. induction Hov as [|o v options values Hv _ IH]; intros p.
  { exists p. simpl. by rewrite app_nil_r. }
  cbn [AgDB.for_each]. unfold mbind at 1. unfold AgDB.M_bind at 1.
  rewrite (parse_option_run db_base o v p Hv).
  destruct (decide (v = "Select")) as [->|Hne].
  - rewrite filter_cons_False by (intros Hs; by apply Hs). apply IH.
  - rewrite filter_cons_True by done.
    match goal with |- ∃ p', AgDB.for_each _ _ ?q = _ ∧ _ =>
      destruct (IH q) as (p' & Hrun & Hgames & Hurl & Hjs) end.
    exists p'. split; [exact Hrun|]. simpl in Hgames, Hurl, Hjs.
    split_and!; [|done..]. rewrite Hgames, fmap_cons. by rewrite <- app_assoc.
Qed.

End listing.

(** C4. On a listing page that has the form, with its target and with a
    value on every option, [parse] adds to the list of games one item per
    option whose value is not the placeholder, in document order: its
    identifier is the value, its URL the target followed by [&] and the
    encoded [id] parameter, joined to the URL of the listing page when it
    does not start with [http]. *)
Theorem C4_listing_pairs `{World} (p : AgDB.process) (html_arg : option string)
    (html : string) (form : node) (db_base : string) (values : list string) :
  AgDB.str_or html_arg (AgDB._html (AgDB.ag p)) = Some html →
  AgDB.find_form (BeautifulSoup html) = Some form →
  attrs_of form !! "action" = Some db_base →
  Forall2 (fun o v => attrs_of o !! "value" = Some v) (findAll "option" form) values →
  let ids := filter (fun v => v ≠ "Select") values in
  let detail_url id :=
    if startswith (db_base ++ "&" ++ urlencode_id id) "http"
    then db_base ++ "&" ++ urlencode_id id
    else urljoin (AgDB.url (AgDB.ag p)) (db_base ++ "&" ++ urlencode_id id) in
  ∃ p', AgDB.parse html_arg p = (Ok tt, p') ∧
    AgDB.games (AgDB.ag p') =
      (AgDB.games (AgDB.ag p) ++ ((fun id => game.init id (detail_url id)) <$> ids))%list ∧
    length (AgDB.games (AgDB.ag p')) = length (AgDB.games (AgDB.ag p)) + length ids.
Proof.
  intros Hhtml Hform Haction Hvalues ids detail_url.
  destruct (parse_options_run db_base _ values p Hvalues)
    as (p' & Hrun & Hgames & _ & _).
  exists p'. split_and!.
  - unfold AgDB.parse, mbind, AgDB.M_bind, tag_getitem, getitem. simpl.
    rewrite Hhtml, Hform. simpl. rewrite Haction. exact Hrun.
  - exact Hgames.
  - rewrite Hgames, length_app, length_fmap. done.
Qed.

Lemma C4_listing_pairs_witness :
  ∃ p', @AgDB.get_games_from_url world3 None fresh = (Ok tt, p') ∧
    AgDB.games (AgDB.ag p') =
      [game.init "swamp" "https://audiogames.net/dbgame.php?lang=en&id=swamp";
       game.init "hero" "https://audiogames.net/dbgame.php?lang=en&id=hero"].
Proof.
  set (p := {| AgDB.ag := AgDB.set_html (Some "https://audiogames.net/")
                 (AgDB.set_url (Some "https://audiogames.net/") (AgDB.ag fresh));
               AgDB.files := ∅; AgDB.stdout := [] |}).
  destruct (@C4_listing_pairs world3 p None "https://audiogames.net/"
              (Tag "form" {[ "id" := "SelfSubmit"; "action" := "dbgame.php?lang=en" ]} [
                 Tag "select" ∅ [
                   Tag "option" (attr "value" "Select") [NavigableString "Select a game"];
                   Tag "option" (attr "value" "swamp") [NavigableString "Swamp"];
                   Tag "option" (attr "value" "hero") [NavigableString "A Hero"]]])
              "dbgame.php?lang=en" ["Select"; "swamp"; "hero"])
    as (p' & Hrun & Hgames & _).
  - reflexivity.
  - vm_compute; reflexivity.
  - reflexivity.
  - repeat constructor.
  - exists p'. split.
    + rewrite <- Hrun. reflexivity.
    + rewrite Hgames. vm_compute; reflexivity.
Defined.

(** A page without the form, and an option without a value, end the
    listing with an exception. *)
Example listing_without_form :
  (@AgDB.get_games_from_url world2 (Some "bare") fresh).1 = Raise TypeError.
Proof. vm_compute; reflexivity. Qed.

(** ** Examples of the store *)

Lemma C6_upsert_merges_witness :
  ∃ p', AgDB.update_if_needed reparsed (holding [stored]) = (Ok None, p') ∧
    AgDB.games_json (AgDB.ag p') =
      [ {[ "id" := "g"; "db_url" := "u"; "a" := "1"; "b" := "3"; "c" := "4" ]} ].
Proof.
  destruct (C6_upsert_merges (holding [stored]) reparsed) as [_ Hfound].
  - repeat constructor. by exists "g".
  - intros Heq. vm_compute in Heq. discriminate Heq.
  - destruct (Hfound 0 stored) as (d & p' & Hd & Hrun & Hjs & _).
    + split; [reflexivity|]. split; [reflexivity|]. intros j r' Hj. lia.
    + exists p'. split; [exact Hrun|]. rewrite Hjs.
      vm_compute in Hd. injection Hd as <-. vm_compute; reflexivity.
Defined.

Lemma C9_save_load_roundtrip_witness :
  ∃ p' q',
    @AgDB.save_game_json world1 "out.json"
      (holding [ {[ "id" := "b" ]}; {[ "id" := "a"; "x" := "1" ]}; {[ "id" := "B" ]} ])
      = (Ok tt, p') ∧
    @AgDB.load_game_json world1 "out.json"
      {| AgDB.ag := AgDB.ag fresh; AgDB.files := AgDB.files p'; AgDB.stdout := [] |}
      = (Ok tt, q') ∧
    AgDB.games_json (AgDB.ag q') =
      [ {[ "id" := "B" ]}; {[ "id" := "a"; "x" := "1" ]}; {[ "id" := "b" ]} ].
Proof.
  destruct (@C9_save_load_roundtrip world1
              (holding [ {[ "id" := "b" ]}; {[ "id" := "a"; "x" := "1" ]}; {[ "id" := "B" ]} ])
              "out.json") as (saved & p' & Hsave & _ & _ & Hmem & _ & Hload & _).
  - repeat constructor; by eexists.
  - done.
  - reflexivity.
  - intros saved Hs. vm_compute in Hs. injection Hs as <-. vm_compute; reflexivity.
  - destruct (Hload {| AgDB.ag := AgDB.ag fresh; AgDB.files := AgDB.files p';
                       AgDB.stdout := [] |} eq_refl) as (q' & Hl & Hq).
    exists p', q'. split; [exact Hsave|]. split; [exact Hl|].
    rewrite Hq, <- Hmem. vm_compute in Hsave. injection Hsave as <-.
    vm_compute; reflexivity.
Defined.

(** A record without an identifier stops the save, and so does a file
    without a name, after the collection was sorted. *)
Example save_without_id :
  (@AgDB.save_game_json world1 "out.json" (holding [ {[ "name" := "x" ]} ])).1
    = Raise KeyError.
Proof. vm_compute; reflexivity. Qed.

Example save_without_name :
  @AgDB.save_game_json world1 "" (holding [ {[ "id" := "b" ]}; {[ "id" := "a" ]} ])
    = (Raise FileNotFoundError, holding [ {[ "id" := "a" ]}; {[ "id" := "b" ]} ]).
Proof. vm_compute; reflexivity. Qed.

(** C10. A scraped attribute named [id] or [db_url] takes the place of
    the identifier or the URL of the item in its flattened record, and
    that record is what the store appends for a new item. *)
Theorem C10_scraped_key_overrides (p : AgDB.process) (g : game.t)
    (k v : string) :
  k = "id" ∨ k = "db_url" →
  game.info g !! k = Some v →
  game.to_dict g !! k = Some v ∧
  (∀ w, w ≠ v → game.to_dict g !! k ≠ Some w) ∧
  (AgDB.select_id (AgDB.games_json (AgDB.ag p)) (game.id g) = Ok [] →
   ∃ p', AgDB.update_if_needed g p = (Ok (Some true), p') ∧
     last (AgDB.games_json (AgDB.ag p')) = Some (game.to_dict g) ∧
     (∀ r, last (AgDB.games_json (AgDB.ag p')) = Some r → r !! k = Some v)).
Proof.
  intros _ Hk. pose proof (to_dict_info g k v Hk) as Hd. split_and!.
  - done.
  - intros w Hw. rewrite Hd. congruence.
  - intros Hsel. eexists. split; [by apply update_if_needed_new|]. simpl.
    rewrite last_snoc. split; [done|]. by intros r [= <-].
Qed.

Lemma C10_scraped_key_overrides_witness :
  game.to_dict masked !! "id" = Some "42" ∧
  game.to_dict masked !! "id" ≠ Some "swamp".
Proof.
  destruct (C10_scraped_key_overrides fresh masked "id" "42")
    as (Hd & Hne & _).
  - by left.
  - reflexivity.
  - split; [exact Hd|]. by apply Hne.
Defined.

(** Such an item is never found again under its own identifier: every
    crawl appends one more record for it. *)
Example masked_item_appended_twice :
  ∃ p1 p2, AgDB.update_if_needed masked fresh = (Ok (Some true), p1) ∧
    AgDB.update_if_needed masked p1 = (Ok (Some true), p2) ∧
    AgDB.games_json (AgDB.ag p2) = [game.to_dict masked; game.to_dict masked].
Proof. do 2 eexists. split_and!; vm_compute; reflexivity. Qed.

(** ** Lookup *)

(** The first pass of the loop of [get_game] reads the attribute [lower]
    of the item: a missing attribute, or a string that cannot be called.
    With a game in the list, [get_game] raises whatever it is asked. *)
Lemma get_game_raises `{World} (query : string) (p : AgDB.process) :
  AgDB.games (AgDB.ag p) ≠ [] →
  ∃ e, AgDB.get_game query p = (Raise e, p) ∧ (e = AttributeError ∨ e = TypeError).
Proof.
  unfold AgDB.get_game, mbind, AgDB.M_bind, AgDB.lift, AgDB.self. simpl.
  destruct (AgDB.games (AgDB.ag p)) as [|g l]; [done|]. intros _.
  unfold game.getattr. destruct (game.info g !! "lower"); simpl; eauto.
Qed.

Lemma get_game_empty `{World} (query : string) (p : AgDB.process) :
  AgDB.games (AgDB.ag p) = [] → AgDB.get_game query p = (Ok None, p).
Proof.
  intros Hg. unfold AgDB.get_game, mbind, AgDB.M_bind, AgDB.lift, AgDB.self.
  simpl. by rewrite Hg.
Qed.

(** C5, at a failing input: asked for [swamp] with the game [Swamp] in
    the list, [get_game] raises instead of returning the game. *)
Theorem C5_get_game_raises :
  let p := {| AgDB.ag := AgDB.set_games [game.init "Swamp" "u"] (AgDB.ag fresh);
              AgDB.files := ∅; AgDB.stdout := [] |} in
  @AgDB.get_game world1 "swamp" p = (Raise AttributeError, p) ∧
  @AgDB.get_game world1 "Swamp" p = (Raise AttributeError, p).
Proof. split; reflexivity. Qed.

(** The lookup that the store does for a parsed item compares the
    identifiers as they are: [swamp] does not find the record of [Swamp]
    and is appended next to it. *)
Example update_lookup_is_exact :
  ∃ p', AgDB.update_if_needed
          (game.mk "swamp" "u" {[ "description" := "" ]})
          (holding [ {[ "id" := "Swamp"; "db_url" := "u"; "description" := "" ]} ])
        = (Ok (Some true), p') ∧
    length (AgDB.games_json (AgDB.ag p')) = 2.
Proof. eexists. split; vm_compute; reflexivity. Qed.

(** ** A whole run *)

(** The script on a site with two games, the page of the second without
    its heading: the first is added, the second counted as an error, and
    the collection is written. *)
Example main_example :
  let r := @main world4 "out.json" fresh in
  r.1 = Ok tt ∧
  AgDB.stdout r.2 =
    ["2 games in database"; "retrieving swamp"; "adding swamp to database";
     "retrieving hero"; "Exception occurred"; "error #1"] ∧
  AgDB.files r.2 !! "out.json" =
    Some (write_records
            [ {[ "id" := "swamp";
                 "db_url" := "https://audiogames.net/dbgame.php?lang=en&id=swamp";
                 "Author" := "Jim"; "Home" := "http://x";
                 "description" := "<p>fun</p>" ]} ]).
Proof. vm_compute. done. Qed.

(** * Further properties *)

(** ** The merge *)

(** Merging the diff into the old record gives what merging the whole
    new record would give. *)
Lemma diff_patch (old new : gmap string string) :
  dict_update old (map_fold (game.diff_step old) ∅ new) = dict_update old new.
Proof.
  unfold dict_update. apply map_eq. intros k. rewrite !lookup_union.
  destruct (new !! k) as [v|] eqn:Hn.
  - destruct (decide (old !! k = Some v)) as [Ho|Ho].
    + assert (map_fold (game.diff_step old) ∅ new !! k = None) as ->.
      { apply eq_None_not_Some. intros [w Hw].
        apply diff_loop_lookup in Hw as [Hw Hne]. congruence. }
      rewrite Ho. done.
    + assert (map_fold (game.diff_step old) ∅ new !! k = Some v) as ->.
      { by apply diff_loop_lookup. }
      by destruct (old !! k).
  - assert (map_fold (game.diff_step old) ∅ new !! k = None) as ->; [|done].
    apply eq_None_not_Some. intros [w Hw].
    apply diff_loop_lookup in Hw as [Hw _]. congruence.
Qed.

Lemma select_id_missing l id :
  ¬ Forall has_id l → AgDB.select_id l id = Raise KeyError.
Proof.
  induction l as [|r l IH]; intros Hno; [by destruct Hno|]. simpl.
  unfold getitem. destruct (r !! "id") as [v|] eqn:Hv; simpl; [|done].
  rewrite IH; [done|]. intros Hl. apply Hno. constructor; [by exists v|done].
Qed.

Lemma select_id_nil l id :
  AgDB.select_id l id = Ok [] → Forall (fun r => r !! "id" ≠ Some id) l.
Proof.
  induction l as [|r l IH]; simpl; [done|].
  unfold getitem. destruct (r !! "id") as [v|] eqn:Hv; simpl; [|done].
  destruct (AgDB.select_id l id) as [found|]; simpl; [|done].
  destruct (decide (v = id)); [done|]. intros [= ->]. constructor; [|by apply IH].
  congruence.
Qed.

Lemma select_id_found l id r rest :
  AgDB.select_id l id = Ok (r :: rest) → ∃ i, first_with_id l id i r.
Proof.
  revert r rest. induction l as [|r0 l IH]; intros r rest; simpl; [done|].
  unfold getitem. destruct (r0 !! "id") as [v|] eqn:Hv; simpl; [|done].
  destruct (AgDB.select_id l id) as [found|] eqn:Hf; simpl; [|done].
  destruct (decide (v = id)) as [->|Hne].
  - intros [= -> _]. exists 0. split_and!; [done..|]. intros j r' Hj. lia.
  - intros [= ->]. destruct (IH r rest eq_refl) as (i & Hi & Hr & Hfirst).
    exists (S i). split_and!; [done..|]. intros [|j] r' Hj; simpl.
    + intros [= <-]. congruence.
    + apply Hfirst. lia.
Qed.

(** What [update_if_needed] does with a parsed item in a collection of
    identified records: it appends the flattened record, or it puts the
    merge of the new record into the first record of that identifier. *)
Lemma update_if_needed_outcome (p : AgDB.process) (g : game.t) :
  Forall has_id (AgDB.games_json (AgDB.ag p)) →
  game.info g ≠ ∅ →
  let js := AgDB.games_json (AgDB.ag p) in
  (Forall (fun r => r !! "id" ≠ Some (game.id g)) js ∧
   ∃ p', AgDB.update_if_needed g p = (Ok (Some true), p') ∧
     AgDB.games_json (AgDB.ag p') = (js ++ [game.to_dict g])%list) ∨
  (∃ i r p', first_with_id js (game.id g) i r ∧
     AgDB.update_if_needed g p = (Ok None, p') ∧
     AgDB.games_json (AgDB.ag p') = <[i := dict_update r (game.to_dict g)]> js ∧
     (dict_update r (game.to_dict g) = r → p' = p)).
Proof.
  intros Hids Hinfo js.
  destruct (select_id_total js (game.id g) Hids) as [[|r rest] Hsel].
  - left. split; [by eapply select_id_nil|]. eexists. split.
    + by apply update_if_needed_new.
    + reflexivity.
  - right. destruct (select_id_found _ _ _ _ Hsel) as [i Hfirst].
    pose proof (index_first js _ i r Hfirst) as Hidx.
    pose proof (diff_nonempty_info g r Hinfo) as Hd.
    pose proof (update_if_needed_found p g r rest _ i Hsel Hd Hidx) as Hup.
    set (d := map_fold (game.diff_step r) ∅ (game.to_dict g)) in *.
    pose proof (diff_patch r (game.to_dict g)) as Hpatch. fold d in Hpatch.
    exists i, r. destruct (decide (d ≠ ∅)) as [Hne|He].
    + eexists. split_and!; [done|exact Hup| |].
      * simpl. rewrite <- Hpatch, list_insert_alter. apply list_alter_ext; [|done].
        intros x Hx. destruct Hfirst as (Hi & _). unfold js in Hi.
        rewrite Hi in Hx. by injection Hx as <-.
      * intros Hsame. exfalso. apply Hne. apply map_eq. intros k.
        rewrite lookup_empty. apply eq_None_not_Some. intros [v Hv].
        apply diff_loop_lookup in Hv as [Hv Hold]. apply Hold.
        rewrite <- Hsame. by apply dict_update_lookup_Some.
    + exists p. split_and!; [done|exact Hup| |done].
      apply dec_stable in He. rewrite <- Hpatch, He, dict_update_empty.
      symmetry. apply list_insert_id. by destruct Hfirst.
Qed.

(** X1. Merging the diff of an item into the record it was compared
    with gives the same record as merging the whole flattened item:
    the diff leaves out nothing that matters. *)
Theorem X1_diff_is_enough_to_merge (g : game.t) (old d : gmap string string) :
  game.diff g (inl old) = Ok d →
  dict_update old d = dict_update old (game.to_dict g) ∧
  (∀ k v, game.to_dict g !! k = Some v → dict_update old d !! k = Some v).
Proof.
  unfold game.diff. destruct (decide (game.info g = ∅)); [done|].
  intros [= <-]. rewrite diff_patch. split; [done|].
  intros k v. apply dict_update_lookup_Some.
Qed.

Lemma X1_diff_is_enough_to_merge_witness :
  dict_update stored {[ "b" := "3"; "c" := "4" ]}
    = dict_update stored (game.to_dict reparsed).
Proof.
  apply (X1_diff_is_enough_to_merge reparsed stored {[ "b" := "3"; "c" := "4" ]}).
  vm_compute; reflexivity.
Defined.

Lemma first_with_id_unique l id i r i' r' :
  first_with_id l id i r → first_with_id l id i' r' → i = i' ∧ r = r'.
Proof.
  intros (Hi & Hr & Hfirst) (Hi' & Hr' & Hfirst').
  assert (i = i') as <-.
  { destruct (Nat.lt_trichotomy i i') as [Hlt|[Heq|Hgt]]; [|done|].
    - by destruct (Hfirst' i r Hlt Hi).
    - by destruct (Hfirst i' r' Hgt Hi'). }
  split; [done|]. congruence.
Qed.

(** After the call the first record of the item's identifier holds the
    whole flattened item (when no scraped [id] hides the identifier). *)
Lemma update_if_needed_stored (p : AgDB.process) (g : game.t) :
  Forall has_id (AgDB.games_json (AgDB.ag p)) →
  game.info g ≠ ∅ →
  game.to_dict g !! "id" = Some (game.id g) →
  ∃ ret p' i m, AgDB.update_if_needed g p = (Ok ret, p') ∧
    first_with_id (AgDB.games_json (AgDB.ag p')) (game.id g) i m ∧
    dict_update m (game.to_dict g) = m ∧
    ids_of (AgDB.games_json (AgDB.ag p')) =
      (if ret is Some _ then ids_of (AgDB.games_json (AgDB.ag p)) ++ [Some (game.id g)]
       else ids_of (AgDB.games_json (AgDB.ag p)))%list ∧
    (ret ≠ None → Forall (fun r => r !! "id" ≠ Some (game.id g))
                    (AgDB.games_json (AgDB.ag p))).
Proof.
  intros Hids Hinfo Hid.
  destruct (update_if_needed_outcome p g Hids Hinfo)
    as [[Hno (p' & Hrun & Hjs)]|(i & r & p' & Hfirst & Hrun & Hjs & _)].
  - exists (Some true), p', (length (AgDB.games_json (AgDB.ag p))), (game.to_dict g).
    split_and!; [done| | | |done].
    + rewrite Hjs. split_and!.
      * by rewrite lookup_app_r, Nat.sub_diag.
      * done.
      * intros j r' Hj Hr'. rewrite lookup_app_l in Hr' by done.
        rewrite Forall_forall in Hno. apply Hno. by eapply list_elem_of_lookup_2.
    + unfold dict_update. apply (idemp_L (∪)).
    + rewrite Hjs. unfold ids_of. rewrite fmap_app. simpl. by rewrite Hid.
  - destruct Hfirst as (Hi & Hr & Hbefore).
    assert (dict_update r (game.to_dict g) !! "id" = Some (game.id g)) as Hmid.
    { by apply dict_update_lookup_Some. }
    exists None, p', i, (dict_update r (game.to_dict g)).
    split_and!; [done| | | |done].
    + rewrite Hjs. split_and!.
      * apply list_lookup_insert_eq. by eapply lookup_lt_Some.
      * done.
      * intros j r' Hj Hr'. rewrite list_lookup_insert_ne in Hr' by lia.
        by eapply Hbefore.
    + unfold dict_update. by rewrite (assoc_L (∪)), (idemp_L (∪)).
    + rewrite Hjs. unfold ids_of. rewrite list_fmap_insert, Hmid.
      apply list_insert_id. by rewrite list_lookup_fmap, Hi, <- Hr.
Qed.

(** X2. After [update_if_needed] on a parsed item, the collection holds
    at some place a record that has every key of the flattened item
    with the item's value. *)
Theorem X2_upsert_stores_the_parse (p : AgDB.process) (g : game.t) :
  Forall has_id (AgDB.games_json (AgDB.ag p)) →
  game.info g ≠ ∅ →
  ∃ ret p' i r', AgDB.update_if_needed g p = (Ok ret, p') ∧
    AgDB.games_json (AgDB.ag p') !! i = Some r' ∧
    (∀ k v, game.to_dict g !! k = Some v → r' !! k = Some v).
Proof.
  intros Hids Hinfo.
  destruct (update_if_needed_outcome p g Hids Hinfo)
    as [[Hno (p' & Hrun & Hjs)]|(i & r & p' & Hfirst & Hrun & Hjs & _)].
  - exists (Some true), p', (length (AgDB.games_json (AgDB.ag p))), (game.to_dict g).
    split_and!; [done| |done]. rewrite Hjs. by rewrite lookup_app_r, Nat.sub_diag.
  - exists None, p', i, (dict_update r (game.to_dict g)).
    split_and!; [done| |].
    + rewrite Hjs. apply list_lookup_insert_eq. destruct Hfirst as (Hi & _).
      by eapply lookup_lt_Some.
    + intros k v. apply dict_update_lookup_Some.
Qed.

Lemma X2_upsert_stores_the_parse_witness :
  ∃ ret p' i r', AgDB.update_if_needed reparsed (holding [stored]) = (Ok ret, p') ∧
    AgDB.games_json (AgDB.ag p') !! i = Some r' ∧
    (∀ k v, game.to_dict reparsed !! k = Some v → r' !! k = Some v).
Proof.
  apply (X2_upsert_stores_the_parse (holding [stored]) reparsed).
  - repeat constructor. by exists "g".
  - intros Heq. vm_compute in Heq. discriminate Heq.
Defined.

(** X3. [update_if_needed] is idempotent: a second call with the same
    parsed item returns [None] and changes nothing, not even the output
    (when no scraped [id] hides the identifier of the item). *)
Theorem X3_upsert_idempotent (p : AgDB.process) (g : game.t) :
  Forall has_id (AgDB.games_json (AgDB.ag p)) →
  game.info g ≠ ∅ →
  game.to_dict g !! "id" = Some (game.id g) →
  ∃ ret p', AgDB.update_if_needed g p = (Ok ret, p') ∧
    AgDB.update_if_needed g p' = (Ok None, p').
Proof.
  intros Hids Hinfo Hid.
  destruct (update_if_needed_stored p g Hids Hinfo Hid)
    as (ret & p' & i & m & Hrun & Hfirst & Hm & _).
  exists ret, p'. split; [done|].
  assert (Forall has_id (AgDB.games_json (AgDB.ag p'))) as Hids'.
  { pose proof (update_if_needed_has_id p g Hids) as Hh. by rewrite Hrun in Hh. }
  destruct (update_if_needed_outcome p' g Hids' Hinfo)
    as [[Hno _]|(i' & r' & p'' & Hfirst' & Hrun' & _ & Hsame)].
  - destruct Hfirst as (Hi & Hr & _). rewrite Forall_forall in Hno.
    exfalso. eapply Hno; [|exact Hr]. by eapply list_elem_of_lookup_2.
  - destruct (first_with_id_unique _ _ _ _ _ _ Hfirst Hfirst') as [<- <-].
    by rewrite Hrun', (Hsame Hm).
Qed.

Lemma X3_upsert_idempotent_witness :
  ∃ ret p', AgDB.update_if_needed reparsed (holding [stored]) = (Ok ret, p') ∧
    AgDB.update_if_needed reparsed p' = (Ok None, p').
Proof.
  apply (X3_upsert_idempotent (holding [stored]) reparsed).
  - repeat constructor. by exists "g".
  - intros Heq. vm_compute in Heq. discriminate Heq.
  - vm_compute; reflexivity.
Defined.



(** X5. One record without an [id] key anywhere in the collection makes
    [update_if_needed] raise [KeyError] for every item, with nothing
    changed: also when a record of the item comes before it. *)
Theorem X5_upsert_record_without_id (p : AgDB.process) (g : game.t) :
  ¬ Forall has_id (AgDB.games_json (AgDB.ag p)) →
  AgDB.update_if_needed g p = (Raise KeyError, p).
Proof.
  intros Hno. unfold AgDB.update_if_needed, mbind, AgDB.M_bind. simpl.
  by rewrite (select_id_missing _ _ Hno).
Qed.

Lemma X5_upsert_record_without_id_witness :
  AgDB.update_if_needed reparsed (holding [stored; {[ "name" := "x" ]}])
    = (Raise KeyError, holding [stored; {[ "name" := "x" ]}]).
Proof.
  apply (X5_upsert_record_without_id (holding [stored; {[ "name" := "x" ]}]) reparsed).
  intros Hall. apply Forall_cons in Hall as [_ Hall].
  apply Forall_cons in Hall as [[v Hv] _]. vm_compute in Hv. discriminate Hv.
Defined.

(** X6. An item that was never parsed is refused with [RuntimeError],
    and nothing changes, when the collection has a record of its
    identifier. *)
Theorem X6_upsert_unparsed_item (p : AgDB.process) (g : game.t) i r :
  Forall has_id (AgDB.games_json (AgDB.ag p)) →
  game.info g = ∅ →
  first_with_id (AgDB.games_json (AgDB.ag p)) (game.id g) i r →
  AgDB.update_if_needed g p = (Raise RuntimeError, p).
Proof.
  intros Hids Hinfo Hfirst.
  destruct (select_id_first _ _ i r Hids Hfirst) as [rest Hsel].
  unfold AgDB.update_if_needed, mbind, AgDB.M_bind. simpl. rewrite Hsel. simpl.
  unfold game.diff. by rewrite decide_True.
Qed.

Lemma X6_upsert_unparsed_item_witness :
  AgDB.update_if_needed (game.init "g" "u") (holding [stored])
    = (Raise RuntimeError, holding [stored]).
Proof.
  apply (X6_upsert_unparsed_item (holding [stored]) (game.init "g" "u") 0 stored).
  - repeat constructor. by exists "g".
  - reflexivity.
  - split; [reflexivity|]. split; [reflexivity|]. intros j r' Hj. lia.
Defined.

Lemma never_loses_refl js : never_loses js js.
Proof. intros j r Hj. by exists r. Qed.

Lemma never_loses_trans js1 js2 js3 :
  never_loses js1 js2 → never_loses js2 js3 → never_loses js1 js3.
Proof.
  intros H12 H23 j r Hj. destruct (H12 j r Hj) as (r2 & Hj2 & Hd2).
  destruct (H23 j r2 Hj2) as (r3 & Hj3 & Hd3). exists r3. split; [done|].
  set_solver.
Qed.

Lemma never_loses_length js js' : never_loses js js' → (length js ≤ length js')%nat.
Proof.
  intros Hl. destruct (decide (length js ≤ length js')%nat) as [|Hgt]; [done|].
  destruct (js !! length js') as [r|] eqn:Hr.
  - destruct (Hl _ r Hr) as (r' & Hr' & _). apply lookup_lt_Some in Hr'. lia.
  - apply lookup_ge_None in Hr. lia.
Qed.

(** Whatever its outcome, a call of [update_if_needed] leaves every
    record at its place with at least its keys, and the files alone. *)
Lemma update_if_needed_never_loses (p : AgDB.process) (g : game.t) :
  never_loses (AgDB.games_json (AgDB.ag p))
              (AgDB.games_json (AgDB.ag (AgDB.update_if_needed g p).2)) ∧
  AgDB.files (AgDB.update_if_needed g p).2 = AgDB.files p ∧
  AgDB.games (AgDB.ag (AgDB.update_if_needed g p).2) = AgDB.games (AgDB.ag p).
Proof.
  unfold AgDB.update_if_needed, mbind, AgDB.M_bind. simpl.
  destruct (AgDB.select_id _ _) as [[|r rest]|]; simpl;
    [|..|split_and!; [apply never_loses_refl|done..]].
  - split_and!; [|done..]. intros j r Hj. exists r. split; [|done].
    by apply lookup_app_l_Some.
  - destruct (game.diff g (inl r)) as [d|]; simpl;
      [|split_and!; [apply never_loses_refl|done..]].
    destruct (decide (d ≠ ∅)); simpl; [|split_and!; [apply never_loses_refl|done..]].
    destruct (AgDB.index _ r) as [i|]; simpl;
      [|split_and!; [apply never_loses_refl|done..]].
    split_and!; [|done..]. intros j x Hj. rewrite list_lookup_alter.
    destruct (decide (i = j)) as [->|Hne].
    + rewrite Hj. simpl. eexists. split; [done|].
      unfold dict_update. rewrite dom_union_L. set_solver.
    + by exists x.
Qed.

(** X7. [update_if_needed] never removes a record, never moves one and
    never removes a key of one, whatever the item and however the call
    ends; it does not touch the files or the list of games. *)
Theorem X7_upsert_never_deletes (p : AgDB.process) (g : game.t) :
  let p' := (AgDB.update_if_needed g p).2 in
  (∀ j r, AgDB.games_json (AgDB.ag p) !! j = Some r →
     ∃ r', AgDB.games_json (AgDB.ag p') !! j = Some r' ∧ dom r ⊆ dom r') ∧
  (length (AgDB.games_json (AgDB.ag p)) ≤ length (AgDB.games_json (AgDB.ag p')))%nat ∧
  AgDB.files p' = AgDB.files p ∧
  AgDB.games (AgDB.ag p') = AgDB.games (AgDB.ag p).
Proof.
  intros p'. destruct (update_if_needed_never_loses p g) as (Hl & Hf & Hg).
  split_and!; [exact Hl| |done..]. by apply never_loses_length.
Qed.

(** ** More on the crawl loop *)

Section crawl_more.
Context `{World}.

Lemma item_never_loses (p : AgDB.process) (g : game.t) :
  never_loses (AgDB.games_json (AgDB.ag p))
              (AgDB.games_json (AgDB.ag (item g p).2)) ∧
  AgDB.files (item g p).2 = AgDB.files p.
Proof.
  unfold item, mbind, AgDB.M_bind. simpl.
  destruct (game.parse g) as [g'|]; simpl; [|split; [apply never_loses_refl|done]].
  pose proof (update_if_needed_never_loses
    {| AgDB.ag := AgDB.ag p; AgDB.files := AgDB.files p;
       AgDB.stdout := AgDB.stdout p ++ ["retrieving " ++ game.id g] |} g')
    as (Hl & Hf & _).
  destruct (AgDB.update_if_needed g' _) as [[r|e] p2]; simpl in *; done.
Qed.

Lemma crawl_never_loses (games : list game.t) (errors : nat) (p : AgDB.process) :
  ∃ errors' p', crawl games errors p = (Ok errors', p') ∧
    never_loses (AgDB.games_json (AgDB.ag p)) (AgDB.games_json (AgDB.ag p')) ∧
    AgDB.files p' = AgDB.files p.
Proof.
  revert errors p. induction games as [|g games IH]; intros errors p.
  { exists errors, p. split_and!; [done|apply never_loses_refl|done]. }
  destruct (turn_run g errors p) as (f & e1 & p1 & Ht & Hag & Hfiles & _).
  rewrite (crawl_cons _ _ _ _ _ _ _ Ht).
  destruct (item_never_loses p g) as [Hl Hf]. rewrite <- Hag in Hl.
  destruct f.
  - destruct (IH e1 p1) as (e2 & p2 & Hc & Hl2 & Hf2).
    exists e2, p2. split_and!; [done| |congruence].
    by eapply never_loses_trans.
  - exists e1, p1. split_and!; [done..|congruence].
Qed.

End crawl_more.

(** X8. A crawl never removes a record from the collection, never moves
    one and never removes a key of one: what a page no longer shows
    stays in the snapshot. Nor does the loop write any file. *)
Theorem X8_crawl_never_deletes `{World} (games : list game.t) (errors : nat)
    (p : AgDB.process) :
  ∃ errors' p', crawl games errors p = (Ok errors', p') ∧
    (∀ j r, AgDB.games_json (AgDB.ag p) !! j = Some r →
       ∃ r', AgDB.games_json (AgDB.ag p') !! j = Some r' ∧ dom r ⊆ dom r') ∧
    (length (AgDB.games_json (AgDB.ag p))
       ≤ length (AgDB.games_json (AgDB.ag p')))%nat ∧
    AgDB.files p' = AgDB.files p.
Proof.
  destruct (crawl_never_loses games errors p) as (e' & p' & Hc & Hl & Hf).
  exists e', p'. split_and!; [done|exact Hl| |done]. by apply never_loses_length.
Qed.

(** X9. A Ctrl-C while an item is processed (in the request, or in the
    pause after the merge) ends the loop there: the error count is as it
    was, the state is the one the interrupted item left, and the items
    after it are not touched. *)
Theorem X9_interrupt_ends_the_loop `{World} (g : game.t) (rest : list game.t)
    (errors : nat) (p : AgDB.process) :
  (item g p).1 = Raise KeyboardInterrupt →
  crawl (g :: rest) errors p = (Ok errors, (item g p).2).
Proof.
  intros Hint.
  assert (AgDB.try_except (item g;; mret (Next, errors)) (handler errors) p
          = (Ok (Break, errors), (item g p).2)) as Ht.
  { unfold AgDB.try_except, mbind at 1. unfold AgDB.M_bind at 1.
    destruct (item g p) as [[u|e] p1]; simpl in *; [done|].
    injection Hint as ->. reflexivity. }
  by rewrite (crawl_cons _ _ _ _ _ _ _ Ht).
Qed.

Lemma X9_interrupt_ends_the_loop_witness :
  @crawl world_interrupted ten_games 0 fresh
    = (Ok 0, (@item world_interrupted (game.init "1" "https://audiogames.net/db.php?id=1")
                fresh).2).
Proof.
  apply (@X9_interrupt_ends_the_loop world_interrupted
           (game.init "1" "https://audiogames.net/db.php?id=1")
           (tail ten_games) 0 fresh).
  reflexivity.
Defined.

(** The cancelled run of ten items still writes its file, and has asked
    for the first item only. *)
Example interrupt_example :
  let r := (@crawl world_interrupted ten_games 0;;
            @AgDB.save_game_json world_interrupted "out.json") fresh in
  r.1 = Ok tt ∧ AgDB.stdout r.2 = ["retrieving 1"] ∧
  AgDB.files r.2 = {[ "out.json" := write_records [] ]}.
Proof. vm_compute. done. Qed.

(** ** More on the listing parser *)

(** [AgDB(json_file)] touches no file, however it ends. *)
Lemma init_frame `{World} (fn : string) (p : AgDB.process) :
  AgDB.files (AgDB.init (Some fn) p).2 = AgDB.files p.
Proof.
  unfold AgDB.init, mbind, AgDB.M_bind. simpl.
  destruct (bool_decide (fn ≠ "") && bool_decide (is_Some (AgDB.files p !! fn)));
    [|done].
  unfold AgDB.load_game_json. destruct (decide (fn = "")); [done|].
  unfold mbind, AgDB.M_bind. simpl.
  destruct (AgDB.files p !! fn) as [text|]; simpl; [|done].
  by destruct (json_load text).
Qed.

Section listing_more.
Context `{World}.

(** What a pass of the option loop can change: the list of games, and
    only by adding to its end. *)
Lemma parse_option_frame (db_base : string) (o : node) (p : AgDB.process) :
  let q := (AgDB.parse_option db_base o p).2 in
  AgDB.games (AgDB.ag p) `prefix_of` AgDB.games (AgDB.ag q) ∧
  AgDB.games_json (AgDB.ag q) = AgDB.games_json (AgDB.ag p) ∧
  AgDB.url (AgDB.ag q) = AgDB.url (AgDB.ag p) ∧
  AgDB.files q = AgDB.files p.
Proof.
  unfold AgDB.parse_option, mbind, AgDB.M_bind, tag_getitem, getitem. simpl.
  destruct (attrs_of o !! "value") as [v|]; simpl; [|done].
  destruct (decide (v = "Select")); simpl; [done|].
  split_and!; [|done..]. by apply prefix_app_r.
Qed.

Lemma parse_options_frame (db_base : string) (options : list node) (p : AgDB.process) :
  let q := (AgDB.for_each (AgDB.parse_option db_base) options p).2 in
  AgDB.games (AgDB.ag p) `prefix_of` AgDB.games (AgDB.ag q) ∧
  AgDB.games_json (AgDB.ag q) = AgDB.games_json (AgDB.ag p) ∧
  AgDB.url (AgDB.ag q) = AgDB.url (AgDB.ag p) ∧
  AgDB.files q = AgDB.files p.
Proof.
  revert p. induction options as [|o options IH]; intros p; [done|].
  cbn [AgDB.for_each]. unfold mbind, AgDB.M_bind.
  pose proof (parse_option_frame db_base o p) as (Hg & Hj & Hu & Hf).
  destruct (AgDB.parse_option db_base o p) as [[u|e] p1]; simpl in *; [|done].
  destruct (IH p1) as (Hg1 & Hj1 & Hu1 & Hf1).
  split_and!; [by etrans|congruence..].
Qed.

Lemma parse_frame (html : option string) (p : AgDB.process) :
  let q := (AgDB.parse html p).2 in
  AgDB.games (AgDB.ag p) `prefix_of` AgDB.games (AgDB.ag q) ∧
  AgDB.games_json (AgDB.ag q) = AgDB.games_json (AgDB.ag p) ∧
  AgDB.url (AgDB.ag q) = AgDB.url (AgDB.ag p) ∧
  AgDB.files q = AgDB.files p.
Proof.
  unfold AgDB.parse, mbind, AgDB.M_bind. simpl.
  destruct (AgDB.str_or html _) as [h|]; simpl; [|done].
  destruct (AgDB.find_form (BeautifulSoup h)) as [form|]; simpl; [|done].
  unfold tag_getitem, getitem.
  destruct (attrs_of form !! "action") as [db_base|]; simpl; [|done].
  apply parse_options_frame.
Qed.

Lemma get_games_from_url_frame (url : option string) (p : AgDB.process) :
  let q := (AgDB.get_games_from_url url p).2 in
  AgDB.games (AgDB.ag p) `prefix_of` AgDB.games (AgDB.ag q) ∧
  AgDB.games_json (AgDB.ag q) = AgDB.games_json (AgDB.ag p) ∧
  AgDB.files q = AgDB.files p.
Proof.
  unfold AgDB.get_games_from_url, mbind, AgDB.M_bind. simpl.
  destruct (session_get _) as [text|]; simpl; [|done].
  match goal with |- context [AgDB.parse None ?q] =>
    pose proof (parse_frame None q) as (Hg & Hj & _ & Hf) end.
  destruct (AgDB.parse None _) as [[u|e] p1]; simpl in *; done.
Qed.

End listing_more.

(** X10. Whatever the page and however it ends, [AgDB.parse] keeps the
    games it had, in their order, at the head of the list (it only adds
    at the end: parsing a listing twice lists its games twice), and it
    changes neither the collection of records nor the files. *)
Theorem X10_listing_only_appends `{World} (html : option string) (p : AgDB.process) :
  let q := (AgDB.parse html p).2 in
  AgDB.games (AgDB.ag p) `prefix_of` AgDB.games (AgDB.ag q) ∧
  AgDB.games_json (AgDB.ag q) = AgDB.games_json (AgDB.ag p) ∧
  AgDB.files q = AgDB.files p.
Proof. destruct (parse_frame html p) as (Hg & Hj & _ & Hf). done. Qed.

(** X11. An option without a [value] attribute ends [AgDB.parse] with
    [KeyError], and the games of the options before it are already in
    the list: the listing is not taken in whole or not at all. *)
Theorem X11_listing_option_without_value `{World} (p : AgDB.process)
    (html_arg : option string) (html : string) (form : node) (db_base : string)
    (before after : list node) (bad : node) (values : list string) :
  AgDB.str_or html_arg (AgDB._html (AgDB.ag p)) = Some html →
  AgDB.find_form (BeautifulSoup html) = Some form →
  attrs_of form !! "action" = Some db_base →
  findAll "option" form = (before ++ bad :: after)%list →
  Forall2 (fun o v => attrs_of o !! "value" = Some v) before values →
  attrs_of bad !! "value" = None →
  ∃ p', AgDB.parse html_arg p = (Raise KeyError, p') ∧
    game.id <$> AgDB.games (AgDB.ag p') =
      ((game.id <$> AgDB.games (AgDB.ag p)) ++ filter (fun v => v ≠ "Select") values)%list.
Proof.
  intros Hhtml Hform Haction Hoptions Hvalues Hbad.
  unfold AgDB.parse, mbind, AgDB.M_bind, tag_getitem, getitem. simpl.
  rewrite Hhtml, Hform. simpl. rewrite Haction, Hoptions. clear Hoptions.
  revert p Hhtml. induction Hvalues as [|o v before values Hv _ IH]; intros p Hhtml.
  - simpl. unfold mbind at 1. unfold AgDB.M_bind at 1.
    unfold AgDB.parse_option, mbind, AgDB.M_bind, tag_getitem, getitem. simpl.
    rewrite Hbad. simpl. exists p. by rewrite app_nil_r.
  - cbn [app AgDB.for_each]. unfold mbind at 1. unfold AgDB.M_bind at 1.
    rewrite (parse_option_run db_base o v p Hv).
    destruct (decide (v = "Select")) as [->|Hne].
    + rewrite filter_cons_False by (intros Hs; by apply Hs). by apply IH.
    + rewrite filter_cons_True by done.
      match goal with |- ∃ p', AgDB.for_each _ _ ?q = _ ∧ _ =>
        destruct (IH q) as (p' & Hrun & Hgames) end; [exact Hhtml|].
      exists p'. split; [exact Hrun|]. rewrite Hgames. simpl.
      rewrite fmap_app. simpl. by rewrite <- app_assoc.
Qed.

Lemma X11_listing_option_without_value_witness :
  ∃ p', @AgDB.get_games_from_url world5 None fresh = (Raise KeyError, p') ∧
    game.id <$> AgDB.games (AgDB.ag p') = ["swamp"].
Proof.
  set (p := {| AgDB.ag := AgDB.set_html (Some "https://audiogames.net/")
                 (AgDB.set_url (Some "https://audiogames.net/") (AgDB.ag fresh));
               AgDB.files := ∅; AgDB.stdout := [] |}).
  destruct (@X11_listing_option_without_value world5 p None "https://audiogames.net/"
              (Tag "form" {[ "id" := "SelfSubmit"; "action" := "dbgame.php?lang=en" ]} [
                 Tag "select" ∅ [
                   Tag "option" (attr "value" "Select") [NavigableString "Select a game"];
                   Tag "option" (attr "value" "swamp") [NavigableString "Swamp"];
                   Tag "option" ∅ [NavigableString "A Hero"];
                   Tag "option" (attr "value" "zork") [NavigableString "Zork"]]])
              "dbgame.php?lang=en"
              [Tag "option" (attr "value" "Select") [NavigableString "Select a game"];
               Tag "option" (attr "value" "swamp") [NavigableString "Swamp"]]
              [Tag "option" (attr "value" "zork") [NavigableString "Zork"]]
              (Tag "option" ∅ [NavigableString "A Hero"])
              ["Select"; "swamp"])
    as (p' & Hrun & Hgames).
  - reflexivity.
  - vm_compute; reflexivity.
  - reflexivity.
  - vm_compute; reflexivity.
  - repeat constructor.
  - reflexivity.
  - exists p'. split.
    + rewrite <- Hrun. reflexivity.
    + rewrite Hgames. vm_compute; reflexivity.
Defined.

(** X12. A page on which no [form] element has the id [SelfSubmit] ends
    the listing with [TypeError] (the subscript of [None]), after the
    URL and the text of the page were stored; no game is added. *)
Theorem X12_listing_without_form `{World} (url : option string) (text : string)
    (p : AgDB.process) :
  let u := default AgDB.base_url (AgDB.str_or url (Some AgDB.base_url)) in
  session_get u = Ok text →
  (∀ e, e ∈ descendants (BeautifulSoup text) →
        ¬ (named "form" e = true ∧ attrs_of e !! "id" = Some "SelfSubmit")) →
  AgDB.get_games_from_url url p =
    (Raise TypeError,
     {| AgDB.ag := AgDB.set_html (Some text) (AgDB.set_url (Some u) (AgDB.ag p));
        AgDB.files := AgDB.files p; AgDB.stdout := AgDB.stdout p |}).
Proof.
  intros u Hget Hno.
  unfold AgDB.get_games_from_url, mbind, AgDB.M_bind. simpl. fold u.
  rewrite Hget. simpl. unfold AgDB.parse, mbind, AgDB.M_bind. simpl.
  assert (AgDB.find_form (BeautifulSoup text) = None) as ->; [|done].
  unfold AgDB.find_form. apply head_None.
  generalize (descendants (BeautifulSoup text)) Hno. clear.
  induction l as [|e l IH]; intros Hno; [done|].
  rewrite filter_cons_False by (apply Hno; by left).
  apply IH. intros e' He'. apply Hno. by right.
Qed.

Lemma X12_listing_without_form_witness :
  (@AgDB.get_games_from_url world5 (Some "bare") fresh).1 = Raise TypeError.
Proof.
  rewrite (@X12_listing_without_form world5 (Some "bare") "bare" fresh).
  - reflexivity.
  - reflexivity.
  - apply Forall_forall. vm_compute.
    repeat (constructor; [intros [Hn _]; discriminate Hn|]). constructor.
Defined.

(** ** The script as a whole *)

(** X13. When the listing cannot be had (the request fails, the form is
    not there, an option has no value), the script ends with that
    exception before the first item, and no file is written. *)
Theorem X13_listing_failure_is_fatal `{World} (fn : string) (e : exn)
    (p p1 : AgDB.process) :
  (AgDB.init (Some fn);; AgDB.get_games_from_url None) p = (Raise e, p1) →
  main fn p = (Raise e, p1) ∧ AgDB.files p1 = AgDB.files p.
Proof.
  intros Hlist. pose proof (init_frame fn p) as Hf0.
  unfold mbind at 1 in Hlist. unfold AgDB.M_bind at 1 in Hlist.
  unfold main. unfold mbind at 1. unfold AgDB.M_bind at 1.
  destruct (AgDB.init (Some fn) p) as [[u|e0] p0]; simpl in Hf0.
  - split.
    + unfold mbind at 1. unfold AgDB.M_bind at 1. by rewrite Hlist.
    + pose proof (get_games_from_url_frame None p0) as (_ & _ & Hf).
      rewrite Hlist in Hf. simpl in Hf. congruence.
  - injection Hlist as <- <-. done.
Qed.

Lemma X13_listing_failure_is_fatal_witness :
  ∃ p1, @main world_down "out.json" fresh = (Raise RequestException, p1) ∧
    AgDB.files p1 = ∅.
Proof.
  eexists. apply (@X13_listing_failure_is_fatal world_down "out.json").
  reflexivity.
Defined.

(** X14. When the snapshot is read and the listing is had, every record
    read has its [id] and the file can be opened, the script ends
    normally, whatever happens to the items, and the file then holds
    the text of the collection sorted by identifier, which has at least
    as many records as were read. *)
Theorem X14_script_saves `{World} (fn : string) (p p1 : AgDB.process) :
  fn ≠ "" → open_w fn = Ok tt →
  (AgDB.init (Some fn);; AgDB.get_games_from_url None) p = (Ok tt, p1) →
  Forall has_id (AgDB.games_json (AgDB.ag p1)) →
  ∃ p' saved, main fn p = (Ok tt, p') ∧
    AgDB.files p' = <[fn := json_dump saved]> (AgDB.files p) ∧
    AgDB.games_json (AgDB.ag p') = saved ∧
    StronglySorted id_le saved ∧
    (length (AgDB.games_json (AgDB.ag p1)) ≤ length saved)%nat.
Proof.
  intros Hfn Hopen Hlist Hids. pose proof (init_frame fn p) as Hf0.
  unfold mbind at 1 in Hlist. unfold AgDB.M_bind at 1 in Hlist.
  destruct (AgDB.init (Some fn) p) as [[u|e0] p0] eqn:Hinit; simpl in Hf0; [|done].
  destruct u.
  pose proof (get_games_from_url_frame None p0) as (_ & _ & Hf1).
  rewrite Hlist in Hf1. simpl in Hf1.
  set (games := AgDB.games (AgDB.ag p1)).
  set (p2 := {| AgDB.ag := AgDB.ag p1; AgDB.files := AgDB.files p1;
                AgDB.stdout := AgDB.stdout p1
                  ++ [pretty (length games) ++ " games in database"] |}).
  destruct (crawl_run games 0 p2) as (errors & p3 & Hc & _ & _ & Hinv & Hf3).
  destruct (crawl_never_loses games 0 p2) as (errors' & p3' & Hc' & Hl & _).
  rewrite Hc in Hc'. injection Hc' as <- <-.
  destruct (sorted_by_id_spec _ (Hinv Hids)) as (saved & Hs & Hperm & Hsorted).
  eexists. exists saved. split_and!.
  - unfold main. unfold mbind at 1. unfold AgDB.M_bind at 1. rewrite Hinit.
    unfold mbind at 1. unfold AgDB.M_bind at 1. rewrite Hlist.
    unfold mbind at 1. unfold AgDB.M_bind at 1. simpl.
    unfold mbind at 1. unfold AgDB.M_bind at 1. simpl.
    unfold mbind at 1. unfold AgDB.M_bind at 1. fold games p2. rewrite Hc.
    by apply save_game_json_run.
  - simpl. rewrite Hf3. unfold p2. simpl. by rewrite Hf1, Hf0.
  - done.
  - done.
  - rewrite Hperm. by apply never_loses_length in Hl.
Qed.

Lemma X14_script_saves_witness :
  ∃ p' saved, @main world4 "out.json" fresh = (Ok tt, p') ∧
    AgDB.files p' = {[ "out.json" := write_records saved ]} ∧
    AgDB.games_json (AgDB.ag p') = saved ∧
    StronglySorted id_le saved.
Proof.
  edestruct (@X14_script_saves world4 "out.json" fresh)
    as (p' & saved & Hmain & Hfiles & Hjs & Hsorted & _).
  - done.
  - reflexivity.
  - vm_compute. reflexivity.
  - constructor.
  - exists p', saved. split_and!; [done| |done..]. rewrite Hfiles. reflexivity.
Defined.

(** ** More on saving *)

Lemma insert_by_key_head x l :
  Forall (key_le x) l → AgDB.insert_by_key x l = x :: l.
Proof.
  destruct l as [|y l]; [done|]. intros Hx. apply Forall_cons in Hx as [Hxy _].
  simpl. unfold key_le, String.le in Hxy. by apply Is_true_true in Hxy as ->.
Qed.

Lemma sort_by_key_sorted_id dec :
  StronglySorted key_le dec → foldr AgDB.insert_by_key [] dec = dec.
Proof.
  induction 1 as [|x l Hl IH Hx]; simpl; [done|].
  rewrite IH. by apply insert_by_key_head.
Qed.

Lemma keyed_undecorate dec :
  Forall (fun x => x.2 !! "id" = Some x.1) dec → AgDB.keyed (snd <$> dec) = Ok dec.
Proof.
  induction 1 as [|[k r] dec Hk _ IH]; [done|].
  rewrite fmap_cons. cbn [AgDB.keyed snd]. simpl in Hk.
  unfold getitem. rewrite Hk, IH. done.
Qed.

(** Sorting what [sorted] returned changes nothing. *)
Lemma sorted_by_id_again l s :
  AgDB.sorted_by_id l = Ok s → AgDB.sorted_by_id s = Ok s.
Proof.
  unfold AgDB.sorted_by_id. destruct (AgDB.keyed l) as [dec|] eqn:Hdec; simpl; [|done].
  intros [= <-]. destruct (keyed_spec l dec Hdec) as [_ Hk].
  rewrite keyed_undecorate.
  - simpl. by rewrite sort_by_key_sorted_id by apply sort_by_key_sorted.
  - by rewrite sort_by_key_perm.
Qed.

(** X15. Saving twice is saving once: the second [save_game_json]
    leaves the collection and the file as the first left them (and
    when the first raises, there is no second). *)
Theorem X15_save_twice `{World} (fn : string) (p : AgDB.process) :
  (AgDB.save_game_json fn;; AgDB.save_game_json fn) p = AgDB.save_game_json fn p.
Proof.
  unfold mbind at 1. unfold AgDB.M_bind at 1.
  destruct (AgDB.sorted_by_id (AgDB.games_json (AgDB.ag p))) as [s|e] eqn:Hs.
  - destruct (decide (fn = "")) as [->|Hfn].
    { by rewrite (save_game_json_not_opened p "" s FileNotFoundError Hs)
        by (left; done). }
    destruct (open_w fn) as [[]|e] eqn:Hopen.
    + rewrite (save_game_json_run p fn s Hs Hfn Hopen).
      rewrite (save_game_json_run _ fn s); [|by eapply sorted_by_id_again|done..].
      simpl. by rewrite insert_insert_eq.
    + by rewrite (save_game_json_not_opened p fn s e Hs) by (right; done).
  - unfold AgDB.save_game_json, mbind, AgDB.M_bind. simpl. by rewrite Hs.
Qed.

(** X16. A record without an [id] key makes [save_game_json] raise
    [KeyError] before anything is done: the collection keeps its order
    and the file is not opened. *)
Theorem X16_save_record_without_id `{World} (fn : string) (p : AgDB.process) :
  ¬ Forall has_id (AgDB.games_json (AgDB.ag p)) →
  AgDB.save_game_json fn p = (Raise KeyError, p).
Proof.
  intros Hno. unfold AgDB.save_game_json, AgDB.sorted_by_id, mbind, AgDB.M_bind.
  simpl. unfold mbind, result_bind. by rewrite (keyed_missing_id _ Hno).
Qed.

Lemma X16_save_record_without_id_witness :
  @AgDB.save_game_json world1 "out.json" (holding [stored; {[ "name" := "x" ]}])
    = (Raise KeyError, holding [stored; {[ "name" := "x" ]}]).
Proof.
  apply (@X16_save_record_without_id world1 "out.json"
           (holding [stored; {[ "name" := "x" ]}])).
  intros Hall. apply Forall_cons in Hall as [_ Hall].
  apply Forall_cons in Hall as [[v Hv] _]. vm_compute in Hv. discriminate Hv.
Defined.

Lemma insert_by_key_filter (k : string) x l :
  filter (fun y => y.1 = k) (AgDB.insert_by_key x l)
    = filter (fun y => y.1 = k) (x :: l).
Proof.
  induction l as [|y l IH]; simpl; [done|].
  destruct (String.leb x.1 y.1) eqn:Hxy; [done|].
  rewrite (filter_cons _ y), IH, !(filter_cons _ x), (filter_cons _ y).
  destruct (decide (x.1 = k)) as [Hx|Hx]; [|done].
  destruct (decide (y.1 = k)) as [Hy|Hy]; [|done].
  exfalso. assert (String.le x.1 y.1) as Hle by (rewrite Hx, Hy; done).
  unfold String.le in Hle. by rewrite Hxy in Hle.
Qed.

Lemma sort_by_key_filter (k : string) dec :
  filter (fun y => y.1 = k) (foldr AgDB.insert_by_key [] dec)
    = filter (fun y => y.1 = k) dec.
Proof.
  induction dec as [|x dec IH]; simpl; [done|].
  by rewrite insert_by_key_filter, !(filter_cons _ x), IH.
Qed.

Lemma undecorate_filter (k : string) (dec : list (string * gmap string string)) :
  Forall (fun x => x.2 !! "id" = Some x.1) dec →
  filter (fun r => r !! "id" = Some k) (snd <$> dec)
    = snd <$> filter (fun y => y.1 = k) dec.
Proof.
  induction 1 as [|x dec Hx _ IH]; [done|].
  rewrite fmap_cons, !filter_cons, IH, Hx.
  destruct (decide (x.1 = k)) as [->|Hne].
  - by rewrite decide_True.
  - rewrite decide_False; [done|]. by intros [= ?].
Qed.

(** X17. The sort of [save_game_json] is stable: the records of one
    identifier stand in the collection it leaves in the order they had,
    whether the file could then be written or not. *)
Theorem X17_save_is_stable `{World} (fn : string) (p : AgDB.process) (k : string) :
  Forall has_id (AgDB.games_json (AgDB.ag p)) →
  filter (fun r => r !! "id" = Some k)
         (AgDB.games_json (AgDB.ag (AgDB.save_game_json fn p).2))
    = filter (fun r => r !! "id" = Some k) (AgDB.games_json (AgDB.ag p)).
Proof.
  intros Hids. destruct (keyed_total _ Hids) as [dec Hdec].
  destruct (keyed_spec _ dec Hdec) as [Hsnd Hk].
  assert (AgDB.games_json (AgDB.ag (AgDB.save_game_json fn p).2)
          = snd <$> foldr AgDB.insert_by_key [] dec) as ->.
  { unfold AgDB.save_game_json, AgDB.sorted_by_id, AgDB.write_file, mbind, AgDB.M_bind.
    simpl. rewrite Hdec. simpl. destruct (decide (fn = "")); [done|]. simpl.
    by destruct (open_w fn). }
  rewrite undecorate_filter by by rewrite sort_by_key_perm.
  by rewrite sort_by_key_filter, <- undecorate_filter, Hsnd.
Qed.

Lemma X17_save_is_stable_witness :
  filter (fun r => r !! "id" = Some "b")
    (AgDB.games_json (AgDB.ag (@AgDB.save_game_json world1 "out.json"
       (holding [ {[ "id" := "b"; "n" := "1" ]}; {[ "id" := "a" ]};
                  {[ "id" := "b"; "n" := "2" ]} ])).2))
    = [ {[ "id" := "b"; "n" := "1" ]}; {[ "id" := "b"; "n" := "2" ]} ].
Proof.
  rewrite (@X17_save_is_stable world1 "out.json"
             (holding [ {[ "id" := "b"; "n" := "1" ]}; {[ "id" := "a" ]};
                        {[ "id" := "b"; "n" := "2" ]} ]) "b").
  - vm_compute; reflexivity.
  - repeat constructor; by eexists.
Defined.

(** ** Failures of the item parse *)

Lemma for_acc_app {A B} (body : A → B → result B) (l1 l2 : list A) (acc : B) :
  for_acc body (l1 ++ l2)%list acc
    = match for_acc body l1 acc with
      | Ok acc' => for_acc body l2 acc'
      | Raise e => Raise e
      end.
Proof.
  revert acc. induction l1 as [|x l1 IH]; intros acc; simpl; [done|].
  destruct (body x acc) as [acc'|e]; simpl; [apply IH|done].
Qed.

Lemma table_pass_stops `{World} (g : game.t) (html : string) (pre post : list node)
    (row : node) (info1 : gmap string string) (e : exn) :
  session_get (game.db_url g) = Ok html →
  findAll "tr" (BeautifulSoup html) = (pre ++ row :: post)%list →
  for_acc game.parse_row pre (game.info g) = Ok info1 →
  game.parse_row row info1 = Raise e →
  game.parse g = Raise e.
Proof.
  intros Hget Hrows Hpre Hrow. unfold game.parse, game.parse_soup.
  rewrite Hget. simpl. rewrite Hrows, for_acc_app, Hpre. simpl.
  by rewrite Hrow.
Qed.

(** X18. A table row with fewer than two cells, after rows that made
    their entries, ends the parse of the page with [IndexError],
    whatever follows the row. *)
Theorem X18_parse_row_short_of_cells `{World} (g : game.t) (html : string)
    (pre post : list node) (row : node) (info1 : gmap string string) :
  session_get (game.db_url g) = Ok html →
  findAll "tr" (BeautifulSoup html) = (pre ++ row :: post)%list →
  for_acc game.parse_row pre (game.info g) = Ok info1 →
  (length (findAll "td" row) < 2)%nat →
  game.parse g = Raise IndexError.
Proof.
  intros Hget Hrows Hpre Hlen.
  apply (table_pass_stops g html pre post row info1); [done..|].
  unfold game.parse_row, getindex.
  destruct (findAll "td" row) as [|c0 [|c1 cells]]; simpl in *; [done|done|lia].
Qed.

Lemma X18_parse_row_short_of_cells_witness :
  @game.parse world7 (game.init "g" "narrow") = Raise IndexError.
Proof.
  apply (@X18_parse_row_short_of_cells world7 (game.init "g" "narrow") "narrow"
           [] [] (tr [td [NavigableString "banner"]]) ∅).
  - reflexivity.
  - vm_compute. reflexivity.
  - reflexivity.
  - vm_compute. lia.
Defined.

(** X19. A second cell whose first link has no [href], after rows that
    made their entries, ends the parse of the page with [KeyError]. *)
Theorem X19_parse_link_without_target `{World} (g : game.t) (html : string)
    (pre post : list node) (row c0 c1 a : node) (cells : list node)
    (info1 : gmap string string) :
  session_get (game.db_url g) = Ok html →
  findAll "tr" (BeautifulSoup html) = (pre ++ row :: post)%list →
  for_acc game.parse_row pre (game.info g) = Ok info1 →
  findAll "td" row = c0 :: c1 :: cells →
  find "a" c1 = Some a → attrs_of a !! "href" = None →
  game.parse g = Raise KeyError.
Proof.
  intros Hget Hrows Hpre Hcells Ha Hhref.
  apply (table_pass_stops g html pre post row info1); [done..|].
  unfold game.parse_row, getindex, tag_getitem, getitem.
  rewrite Hcells. simpl. rewrite Ha. simpl. by rewrite Hhref.
Qed.

Lemma X19_parse_link_without_target_witness :
  @game.parse world7 (game.init "g" "no_href") = Raise KeyError.
Proof.
  apply (@X19_parse_link_without_target world7 (game.init "g" "no_href") "no_href"
           [tr [td [NavigableString "Author:"]; td [NavigableString "Jim"]]] []
           (tr [td [NavigableString "Home:"]; td [Tag "a" ∅ [NavigableString "site"]]])
           (td [NavigableString "Home:"]) (td [Tag "a" ∅ [NavigableString "site"]])
           (Tag "a" ∅ [NavigableString "site"]) [] {[ "Author" := "Jim" ]}).
  - reflexivity.
  - vm_compute. reflexivity.
  - vm_compute. reflexivity.
  - vm_compute. reflexivity.
  - vm_compute. reflexivity.
  - reflexivity.
Defined.

Lemma description_loop_runs_out `{World} (following : list node) (acc : string) :
  Forall (fun e => game.is_break e = false) following →
  game.description_loop following acc = Raise AttributeError.
Proof.
  intros Hf. revert acc. induction Hf as [|e l He _ IH]; intros acc; simpl; [done|].
  rewrite He. apply IH.
Qed.

(** X20. When no element after the [Description] heading is a second
    level heading reading [Admin], [Community] or [Quick Links], the
    description loop runs off the end of the document and the parse
    ends with [AttributeError], though the table pass went through. *)
Theorem X20_parse_description_without_end `{World} (g : game.t) (html : string)
    (pre following : list node) (h : node) :
  session_get (game.db_url g) = Ok html →
  is_Ok (for_acc game.parse_row (findAll "tr" (BeautifulSoup html)) (game.info g)) →
  descendants (BeautifulSoup html) = (pre ++ h :: following)%list →
  Forall (fun e => game.is_description e = false) pre →
  game.is_description h = true →
  Forall (fun e => game.is_break e = false) following →
  game.parse g = Raise AttributeError.
Proof.
  intros Hget [info1 Ht] Hdoc Hpre Hh Hf. unfold game.parse, game.parse_soup.
  rewrite Hget. simpl. rewrite Ht. simpl.
  rewrite Hdoc, (after_first_split _ pre h following Hpre Hh).
  by rewrite description_loop_runs_out.
Qed.

Lemma X20_parse_description_without_end_witness :
  @game.parse world7 (game.init "g" "open_end") = Raise AttributeError.
Proof.
  apply (@X20_parse_description_without_end world7 (game.init "g" "open_end")
           "open_end" [] [para [NavigableString "fun"];
                          Tag "h3" ∅ [NavigableString "Community"]]
           (h2 "Description")).
  - reflexivity.
  - eexists. vm_compute. reflexivity.
  - vm_compute. reflexivity.
  - constructor.
  - reflexivity.
  - repeat constructor.
Defined.

(** ** What a parse keeps *)

Lemma parse_row_keeps (row : node) (info info' : gmap string string) (k : string) :
  game.parse_row row info = Ok info' → is_Some (info !! k) → is_Some (info' !! k).
Proof.
  unfold game.parse_row, getindex, tag_getitem, getitem.
  destruct (findAll "td" row !! 0) as [c0|]; simpl; [|done].
  destruct (findAll "td" row !! 1) as [c1|]; simpl; [|done].
  assert (∀ v, is_Some (info !! k) →
            is_Some (<[rstrip ":" (text c0) := v]> info !! k)) as Hins.
  { intros v Hk. rewrite lookup_insert. by case_decide. }
  destruct (find "a" c1) as [a|]; simpl.
  - destruct (attrs_of a !! "href"); simpl; [|done]. intros [= <-]. apply Hins.
  - intros [= <-]. apply Hins.
Qed.

Lemma table_pass_keeps (rows : list node) (info info' : gmap string string) (k : string) :
  for_acc game.parse_row rows info = Ok info' →
  is_Some (info !! k) → is_Some (info' !! k).
Proof.
  revert info. induction rows as [|row rows IH]; intros info; simpl.
  - by intros [= <-].
  - destruct (game.parse_row row info) as [info1|e] eqn:Hr; simpl; [|done].
    intros Hrest Hk. apply (IH info1 Hrest). by eapply parse_row_keeps.
Qed.

(** X21. A parse that succeeds keeps the identifier and the address of
    the game and every key its info had before (a key that the page no
    longer shows stays from the parse before), and the game then has a
    [description] attribute. *)
Theorem X21_parse_keeps_what_was_there `{World} (g g' : game.t) :
  game.parse g = Ok g' →
  game.id g' = game.id g ∧ game.db_url g' = game.db_url g ∧
  (∀ k, is_Some (game.info g !! k) → is_Some (game.info g' !! k)) ∧
  ∃ d, game.getattr g' "description" = Ok d.
Proof.
  unfold game.parse. destruct (session_get (game.db_url g)) as [html|]; simpl; [|done].
  destruct (game.parse_soup (BeautifulSoup html) (game.info g)) as [info'|] eqn:Hs;
    simpl; [|done].
  intros [= <-]. simpl. split_and!; [done|done| |].
  - intros k Hk. revert Hs. unfold game.parse_soup.
    destruct (for_acc game.parse_row _ (game.info g)) as [info1|] eqn:Ht; simpl; [|done].
    destruct (after_first _ _) as [following|]; simpl; [|done].
    destruct (game.description_loop following "") as [d|]; simpl; [|done].
    intros [= <-]. rewrite lookup_insert. case_decide; [done|].
    by eapply table_pass_keeps.
  - apply parse_soup_description in Hs as [d Hd]. exists d.
    unfold game.getattr. simpl. by rewrite Hd.
Qed.

Lemma X21_parse_keeps_what_was_there_witness :
  ∃ g', @game.parse world1 (game.mk "g" "u" {[ "Price" := "free" ]}) = Ok g' ∧
    game.id g' = "g" ∧ is_Some (game.info g' !! "Price") ∧
    ∃ d, game.getattr g' "description" = Ok d.
Proof.
  eexists. split; [vm_compute; reflexivity|].
  edestruct (@X21_parse_keeps_what_was_there world1
               (game.mk "g" "u" {[ "Price" := "free" ]})) as (Hid & _ & Hk & Hd).
  - vm_compute. reflexivity.
  - split; [exact Hid|]. split; [|exact Hd]. apply Hk. by eexists.
Defined.

Lemma fold_entries_lookup (entries : list (string * string))
    (info : gmap string string) (k : string) :
  foldl (fun m kv => <[kv.1 := kv.2]> m) info entries !! k
    = match last (filter (fun kv => kv.1 = k) entries) with
      | Some kv => Some kv.2
      | None => info !! k
      end.
Proof.
  revert info. induction entries as [|kv entries IH]; intros info; simpl; [done|].
  rewrite IH, filter_cons. destruct (decide (kv.1 = k)) as [Hk|Hk].
  - rewrite last_cons. destruct (last (filter _ entries)); [done|].
    by rewrite <- Hk, lookup_insert_eq.
  - destruct (last (filter _ entries)); [done|]. by rewrite lookup_insert_ne.
Qed.

Lemma table_pass_entries (rows : list node) (entries : list (string * string))
    (info : gmap string string) :
  Forall2 (fun row kv => row_entry row kv.1 kv.2) rows entries →
  for_acc game.parse_row rows info
    = Ok (foldl (fun m kv => <[kv.1 := kv.2]> m) info entries).
Proof.
  intros Hrows. revert info.
  induction Hrows as [|row kv rows entries Hrow _ IH]; intros info; simpl; [done|].
  rewrite (parse_row_entry row kv.1 kv.2 info Hrow). simpl. apply IH.
Qed.

(** X22. When two rows of a page come to the same key (labels that
    differ in their trailing colons only do), the entry of the later row
    is the one the table pass leaves; a key that no row has keeps the
    value it had. *)
Theorem X22_table_pass_last_row_wins (soup : node)
    (entries : list (string * string)) (info : gmap string string) (k : string) :
  Forall2 (fun row kv => row_entry row kv.1 kv.2) (findAll "tr" soup) entries →
  ∃ info', for_acc game.parse_row (findAll "tr" soup) info = Ok info' ∧
    info' !! k = match last (filter (fun kv => kv.1 = k) entries) with
                 | Some kv => Some kv.2
                 | None => info !! k
                 end.
Proof.
  intros Hrows. eexists. split; [by apply table_pass_entries|].
  apply fold_entries_lookup.
Qed.

Lemma X22_table_pass_last_row_wins_witness :
  ∃ info', for_acc game.parse_row (findAll "tr" page_twice) {[ "Size" := "1" ]}
             = Ok info' ∧
    info' !! "Price" = Some "5" ∧ info' !! "Size" = Some "1".
Proof.
  destruct (X22_table_pass_last_row_wins page_twice
              [("Price", "free"); ("Author", "Jim"); ("Price", "5")]
              {[ "Size" := "1" ]} "Price") as (info' & Hrun & Hprice).
  - repeat constructor.
    + exists (td [NavigableString "Price:"]), (td [NavigableString "free"]), [].
      split; [reflexivity|]. split; [reflexivity|]. right. split; reflexivity.
    + exists (td [NavigableString "Author:"]), (td [NavigableString "Jim"]), [].
      split; [reflexivity|]. split; [reflexivity|]. right. split; reflexivity.
    + exists (td [NavigableString "Price"]), (td [NavigableString "5"]), [].
      split; [reflexivity|]. split; [reflexivity|]. right. split; reflexivity.
  - exists info'. split; [exact Hrun|]. split; [exact Hprice|].
    vm_compute in Hrun. injection Hrun as <-. reflexivity.
Defined.

(** ** The other methods *)

(** X23. [get_downloaded_games] reads [self.info], which an [AgDB]
    object does not have: with a game in the list the call ends with
    [AttributeError]; with none the condition is never evaluated and the
    result is the empty list. The state is as before either way. *)
Theorem X23_get_downloaded_games (p : AgDB.process) :
  AgDB.get_downloaded_games p
    = (if decide (AgDB.games (AgDB.ag p) = []) then Ok [] else Raise AttributeError, p).
Proof.
  unfold AgDB.get_downloaded_games, AgDB.lift, AgDB.self, mbind, AgDB.M_bind.
  by destruct (AgDB.games (AgDB.ag p)).
Qed.

Example get_downloaded_games_example :
  (@AgDB.get_games_from_url world3 None;; AgDB.get_downloaded_games) fresh
    = (Raise AttributeError, (@AgDB.get_games_from_url world3 None fresh).2) ∧
  AgDB.get_downloaded_games fresh = (Ok [], fresh).
Proof. split; vm_compute; reflexivity. Qed.

(** X24. The difference of a parsed game with itself, given as an
    instance, is not empty: the instance stands for its [info], which
    has no [id] and no [db_url] unless the page had such rows, so these
    two keys of [to_dict] are reported, and nothing else. *)
Theorem X24_diff_with_itself (g : game.t) :
  game.info g ≠ ∅ →
  game.info g !! "id" = None → game.info g !! "db_url" = None →
  game.diff g (inr g)
    = Ok (<["db_url" := game.db_url g]> (<["id" := game.id g]> ∅)).
Proof.
  intros Hinfo Hid Hurl. unfold game.diff. rewrite decide_False by done.
  f_equal. apply map_eq. intros k. apply option_eq. intros v.
  rewrite diff_loop_lookup. unfold game.to_dict.
  destruct (game.info g !! k) as [w|] eqn:Hk.
  - rewrite (dict_update_lookup_Some _ _ k w Hk).
    assert (k ≠ "id") by congruence. assert (k ≠ "db_url") by congruence.
    rewrite !lookup_insert_ne, lookup_empty by done. naive_solver.
  - rewrite dict_update_lookup_None by done. naive_solver.
Qed.

Lemma X24_diff_with_itself_witness :
  game.diff parsed1 (inr parsed1) = Ok {[ "id" := "g"; "db_url" := "u" ]}.
Proof.
  rewrite (X24_diff_with_itself parsed1).
  - vm_compute. reflexivity.
  - intros Heq. vm_compute in Heq. discriminate Heq.
  - reflexivity.
  - reflexivity.
Defined.

(** X25. Reading the listing from a file gives what fetching it gives,
    result and state, when the file holds the text that the address
    serves and the object has that address already; a file that is not
    there ends the call with [FileNotFoundError] and changes nothing. *)
Theorem X25_listing_from_file `{World} (fn u text : string) (p : AgDB.process) :
  fn ≠ "" → u ≠ "" →
  AgDB.url (AgDB.ag p) = Some u →
  session_get u = Ok text →
  (AgDB.files p !! fn = Some text →
   AgDB.get_games_from_file fn p = AgDB.get_games_from_url (Some u) p) ∧
  (AgDB.files p !! fn = None →
   AgDB.get_games_from_file fn p = (Raise FileNotFoundError, p)).
Proof.
  intros Hfn Hu Hurl Hget. unfold AgDB.get_games_from_file.
  rewrite decide_False by done. split; intros Hf.
  - unfold AgDB.get_games_from_url, AgDB.str_or. rewrite decide_False by done.
    unfold mbind, AgDB.M_bind. simpl. rewrite Hf, Hget. simpl.
    destruct p as [[gs js h u'] fs out]. simpl in *. by subst u'.
  - unfold mbind, AgDB.M_bind. simpl. by rewrite Hf.
Qed.

Lemma X25_listing_from_file_witness :
  let p := {| AgDB.ag := AgDB.set_url (Some "https://audiogames.net/") (AgDB.ag fresh);
              AgDB.files := {[ "ag.html" := "https://audiogames.net/" ]};
              AgDB.stdout := [] |} in
  @AgDB.get_games_from_file world3 "ag.html" p
    = @AgDB.get_games_from_url world3 (Some "https://audiogames.net/") p ∧
  game.id <$> AgDB.games (AgDB.ag (@AgDB.get_games_from_file world3 "ag.html" p).2)
    = ["swamp"; "hero"].
Proof.
  intros p. split.
  - apply (@X25_listing_from_file world3 "ag.html" "https://audiogames.net/"
             "https://audiogames.net/" p); done.
  - vm_compute. reflexivity.
Defined.

(** ** The snapshot at the start of the script *)

Lemma init_loads `{World} (fn text : string) (v : list (gmap string string))
    (p : AgDB.process) :
  fn ≠ "" → AgDB.files p !! fn = Some text → json_load text = Ok v →
  AgDB.init (Some fn) p =
    (Ok tt, {| AgDB.ag := {| AgDB.games := []; AgDB.games_json := v;
                             AgDB._html := None; AgDB.url := None |};
               AgDB.files := AgDB.files p; AgDB.stdout := AgDB.stdout p |}).
Proof.
  intros Hfn Hf Hv. unfold AgDB.init. unfold mbind at 1. unfold AgDB.M_bind at 1.
  simpl. unfold mbind at 1. unfold AgDB.M_bind at 1. simpl. rewrite Hf.
  rewrite bool_decide_eq_true_2 by done.
  rewrite bool_decide_eq_true_2 by by eexists. simpl.
  by rewrite (load_game_json_run _ fn text v).
Qed.

(** X26. A snapshot that is there and is not JSON ends the script with
    the error of the codec before any request: nothing is listed,
    nothing is printed and the file stays as it is. *)
Theorem X26_corrupt_snapshot_is_fatal `{World} (fn text : string) (e : exn)
    (p : AgDB.process) :
  fn ≠ "" → AgDB.files p !! fn = Some text → json_load text = Raise e →
  ∃ p1, main fn p = (Raise e, p1) ∧
    AgDB.files p1 = AgDB.files p ∧ AgDB.stdout p1 = AgDB.stdout p ∧
    AgDB.games (AgDB.ag p1) = [] ∧ AgDB.games_json (AgDB.ag p1) = [].
Proof.
  intros Hfn Hf Hv. eexists. split.
  - unfold main. unfold mbind at 1. unfold AgDB.M_bind at 1.
    unfold AgDB.init. unfold mbind at 1. unfold AgDB.M_bind at 1. simpl.
    unfold mbind at 1. unfold AgDB.M_bind at 1. simpl. rewrite Hf.
    rewrite bool_decide_eq_true_2 by done.
    rewrite bool_decide_eq_true_2 by by eexists. simpl.
    unfold AgDB.load_game_json. rewrite decide_False by done.
    unfold mbind, AgDB.M_bind. simpl. rewrite Hf. simpl. rewrite Hv. simpl.
    reflexivity.
  - done.
Qed.

Lemma X26_corrupt_snapshot_is_fatal_witness :
  ∃ p1, @main world4 "out.json"
          {| AgDB.ag := AgDB.ag fresh; AgDB.files := {[ "out.json" := "{" ]};
             AgDB.stdout := [] |} = (Raise ValueError, p1) ∧
    AgDB.files p1 = {[ "out.json" := "{" ]}.
Proof.
  edestruct (@X26_corrupt_snapshot_is_fatal world4 "out.json" "{" ValueError
               {| AgDB.ag := AgDB.ag fresh; AgDB.files := {[ "out.json" := "{" ]};
                  AgDB.stdout := [] |}) as (p1 & Hmain & Hfiles & _).
  - done.
  - reflexivity.
  - vm_compute. reflexivity.
  - exists p1. split; [exact Hmain|exact Hfiles].
Defined.

(** X27. A run of the script that gets its listing loses nothing of the
    snapshot it started from: the script ends normally and the file then
    holds the text of a rearrangement, sorted by identifier, of a
    collection that has every record of the snapshot at its place with
    at least the keys it had. *)
Theorem X27_script_keeps_the_snapshot `{World} (fn text : string)
    (v : list (gmap string string)) (p p1 : AgDB.process) :
  fn ≠ "" → open_w fn = Ok tt →
  AgDB.files p !! fn = Some text → json_load text = Ok v → Forall has_id v →
  (AgDB.init (Some fn);; AgDB.get_games_from_url None) p = (Ok tt, p1) →
  ∃ p' saved js, main fn p = (Ok tt, p') ∧
    AgDB.files p' = <[fn := json_dump saved]> (AgDB.files p) ∧
    StronglySorted id_le saved ∧ saved ≡ₚ js ∧ never_loses v js.
Proof.
  intros Hfn Hopen Hf Hv Hids Hlist.
  pose proof (init_loads fn text v p Hfn Hf Hv) as Hinit.
  unfold mbind at 1 in Hlist. unfold AgDB.M_bind at 1 in Hlist.
  rewrite Hinit in Hlist.
  match type of Hlist with AgDB.get_games_from_url None ?q = _ =>
    pose proof (get_games_from_url_frame None q) as (_ & Hj1 & Hf1) end.
  rewrite Hlist in Hj1, Hf1. simpl in Hj1, Hf1.
  set (games := AgDB.games (AgDB.ag p1)).
  set (p2 := {| AgDB.ag := AgDB.ag p1; AgDB.files := AgDB.files p1;
                AgDB.stdout := AgDB.stdout p1
                  ++ [pretty (length games) ++ " games in database"] |}).
  destruct (crawl_run games 0 p2) as (errors & p3 & Hc & _ & _ & Hinv & Hf3).
  destruct (crawl_never_loses games 0 p2) as (errors' & p3' & Hc' & Hl & _).
  rewrite Hc in Hc'. injection Hc' as <- <-.
  assert (Forall has_id (AgDB.games_json (AgDB.ag p2))) as Hids2.
  { unfold p2. simpl. by rewrite Hj1. }
  destruct (sorted_by_id_spec _ (Hinv Hids2)) as (saved & Hs & Hperm & Hsorted).
  eexists. exists saved, (AgDB.games_json (AgDB.ag p3)). split_and!.
  - unfold main. unfold mbind at 1. unfold AgDB.M_bind at 1. rewrite Hinit.
    unfold mbind at 1. unfold AgDB.M_bind at 1. rewrite Hlist.
    unfold mbind at 1. unfold AgDB.M_bind at 1. simpl.
    unfold mbind at 1. unfold AgDB.M_bind at 1. simpl.
    unfold mbind at 1. unfold AgDB.M_bind at 1. fold games p2. rewrite Hc.
    by apply save_game_json_run.
  - simpl. rewrite Hf3. unfold p2. simpl. by rewrite Hf1.
  - done.
  - done.
  - unfold p2 in Hl. simpl in Hl. by rewrite Hj1 in Hl.
Qed.

Lemma X27_script_keeps_the_snapshot_witness :
  ∃ p' saved js,
    @main world4 "out.json"
      {| AgDB.ag := AgDB.ag fresh;
         AgDB.files := {[ "out.json" :=
           write_records [ {[ "id" := "zork"; "Price" := "5" ]} ] ]};
         AgDB.stdout := [] |} = (Ok tt, p') ∧
    AgDB.files p' = {[ "out.json" := write_records saved ]} ∧
    saved ≡ₚ js ∧ never_loses [ {[ "id" := "zork"; "Price" := "5" ]} ] js.
Proof.
  edestruct (@X27_script_keeps_the_snapshot world4 "out.json"
               (write_records [ {[ "id" := "zork"; "Price" := "5" ]} ])
               [ {[ "id" := "zork"; "Price" := "5" ]} ]
               {| AgDB.ag := AgDB.ag fresh;
                  AgDB.files := {[ "out.json" :=
                    write_records [ {[ "id" := "zork"; "Price" := "5" ]} ] ]};
                  AgDB.stdout := [] |})
    as (p' & saved & js & Hmain & Hfiles & _ & Hperm & Hl).
  - done.
  - reflexivity.
  - reflexivity.
  - vm_compute. reflexivity.
  - repeat constructor. by eexists.
  - vm_compute. reflexivity.
  - exists p', saved, js. split_and!; [done| |done..].
    rewrite Hfiles. apply insert_singleton_eq.
Defined.
